(** * LabSound: the AudioContext graph scheduler and the sampler's note names

    A shallow embedding of [src/Modules/webaudio/AudioContext.cpp] and of
    [SamplerSound] from [include/LabSound/extended/SampledInstrumentNode.h],
    with the properties of the graph-mutation engine stated over it.

    Conventions.
    - A [std::shared_ptr<AudioNode>] is an [option node]: [None] is the null
      pointer, [Some n] points to the node object of identity [n] (its
      address, so the order of [nat] stands for the order of pointers).
    - Dereferencing a null pointer is undefined behaviour; functions that may
      do so return [option], [None] standing for it.
    - [ASSERT]s vanish in release builds and are written as comments.
    - The mutexes serialise the calls; each function is one atomic step.
    - [int] counters touched through [atomicIncrement]/[atomicDecrement] are
      32-bit and wrap around. *)

From Stdlib Require Import ZArith Lia Floats Ascii String DecimalString Sorted.
From stdpp Require Import base option list gmap strings.

Open Scope Z_scope.

(** ** Machine integers *)

Definition INT_MIN : Z := - 2 ^ 31.
Definition INT_MAX : Z := 2 ^ 31 - 1.

(** Two's complement reduction of an integer to [int]. *)
Definition wrap_int (z : Z) : Z := (z + 2 ^ 31) `mod` 2 ^ 32 - 2 ^ 31.

(** [WTF::atomicIncrement] and [atomicDecrement] on an [int]: the new
    value of the counter. *)
Definition atomicIncrement (x : Z) : Z := wrap_int (x + 1).
Definition atomicDecrement (x : Z) : Z := wrap_int (x - 1).

(** ** Nodes, ports and requests *)

Abbreviation node := nat (only parsing).

(** [n->input(i)] and [n->output(i)]: a port is named by its node and index. *)
Abbreviation AudioNodeInput := (nat * nat)%type (only parsing).
Abbreviation AudioNodeOutput := (nat * nat)%type (only parsing).

(** An edge of the graph: the output that feeds, the input that receives. *)
Abbreviation Edge := (nat * nat * (nat * nat))%type (only parsing).

Inductive ExceptionCode := NO_ERR | SYNTAX_ERR.

Module PendingConnection.
Record t := mk {
  fromInput : option AudioNodeInput;
  toOutput : option AudioNodeOutput;
  connect : bool
}.
End PendingConnection.

Module PendingNodeConnection.
(** Built as [PendingNodeConnection(from, to, connect)]. *)
Record t := mk {
  from : option node;
  to : option node;
  connect : bool   (* true: connect; false: disconnect *)
}.
End PendingNodeConnection.

(** [AudioBuffer::create(numberOfChannels, numberOfFrames, sampleRate)],
    kept as the request it was made with. *)
Record AudioBuffer := {
  numberOfChannels : Z;
  numberOfFrames : Z;
  bufferSampleRate : float
}.

(** ** The node objects *)

(** Modelled from the spec: the member functions of [AudioNode] that the
    scheduler calls; AudioNode.cpp is not among the sources, so they are a
    parameter of the development. A node "owns no graph-level scheduling
    logic, only its own state": enabling and disabling its output
    production and reporting that it has finished act on what the nodes
    keep to themselves, [NodeInternals], given the node's connection
    reference count at the time of the call. *)
Class AudioNodeImpl := {
  NodeInternals : Type;
  enableOutputsIfNecessary : node -> Z -> NodeInternals -> NodeInternals;
  disableOutputsIfNecessary : node -> Z -> NodeInternals -> NodeInternals;
  hasFinished : node -> NodeInternals -> bool
}.

Section Scheduler.
Context `{Impl : AudioNodeImpl}.

(** The heap of node objects, as far as the scheduler reaches into it. *)
Record AudioNodes := {
  (** [AudioNode::m_connectionRefCount], 0 for a node never touched. *)
  m_connectionRefCount : gmap nat Z;
  (** The contributing edges of all junctions. *)
  junctions : gset Edge;
  (** The junctions whose dirty flag is set. *)
  dirtyJunctions : gset AudioNodeInput;
  internals : NodeInternals
}.

(** The members of the class that the functions below read or write, and
    those the constructors initialise; [m_listener] and [m_audioDecoder],
    which none of them consults, are left out. *)
Record AudioContext := {
  m_isStopScheduled : bool;
  m_isInitialized : bool;
  m_isAudioThreadFinished : bool;
  m_destinationNode : option node;
  m_isDeletionScheduled : bool;
  m_automaticPullNodesNeedUpdating : bool;
  m_connectionCount : Z;
  m_isOfflineContext : bool;
  m_activeSourceCount : Z;
  (** The loader obtained from
      [HRTFDatabaseLoader::createAndLoadAsynchronouslyIfNecessary(rate)],
      kept as the rate it was asked for. *)
  m_hrtfDatabaseLoader : option float;
  m_renderTarget : option AudioBuffer;
  m_referencedNodes : list node;
  m_finishedNodes : list node;
  m_nodesToDelete : list node;
  m_nodesMarkedForDeletion : list node;
  (** [std::set]: strictly ascending, iterated in that order. *)
  m_automaticPullNodes : list node;
  m_renderingAutomaticPullNodes : list node;
  automaticSources : list node;
  pendingConnections : list PendingConnection.t;
  pendingNodeConnections : list PendingNodeConnection.t
}.

(** The context together with the node objects it points to. *)
Record World := {
  ctx : AudioContext;
  nodes : AudioNodes
}.

(** *** Field updates *)

Definition set_m_connectionRefCount (f : gmap nat Z -> gmap nat Z) (a : AudioNodes) : AudioNodes :=
  {| m_connectionRefCount := f (m_connectionRefCount a); junctions := junctions a;
     dirtyJunctions := dirtyJunctions a; internals := internals a |}.

Definition set_junctions (j : gset Edge) (d : gset AudioNodeInput) (a : AudioNodes) : AudioNodes :=
  {| m_connectionRefCount := m_connectionRefCount a; junctions := j;
     dirtyJunctions := d; internals := internals a |}.

Definition set_internals (f : NodeInternals -> NodeInternals) (a : AudioNodes) : AudioNodes :=
  {| m_connectionRefCount := m_connectionRefCount a; junctions := junctions a;
     dirtyJunctions := dirtyJunctions a; internals := f (internals a) |}.

Definition set_m_referencedNodes (f : list node -> list node) (c : AudioContext) : AudioContext :=
  {| m_isStopScheduled := m_isStopScheduled c; m_isInitialized := m_isInitialized c;
     m_isAudioThreadFinished := m_isAudioThreadFinished c;
     m_destinationNode := m_destinationNode c;
     m_isDeletionScheduled := m_isDeletionScheduled c;
     m_automaticPullNodesNeedUpdating := m_automaticPullNodesNeedUpdating c;
     m_connectionCount := m_connectionCount c; m_isOfflineContext := m_isOfflineContext c;
     m_activeSourceCount := m_activeSourceCount c;
     m_hrtfDatabaseLoader := m_hrtfDatabaseLoader c; m_renderTarget := m_renderTarget c;
     m_referencedNodes := f (m_referencedNodes c);
     m_finishedNodes := m_finishedNodes c; m_nodesToDelete := m_nodesToDelete c;
     m_nodesMarkedForDeletion := m_nodesMarkedForDeletion c;
     m_automaticPullNodes := m_automaticPullNodes c;
     m_renderingAutomaticPullNodes := m_renderingAutomaticPullNodes c;
     automaticSources := automaticSources c;
     pendingConnections := pendingConnections c;
     pendingNodeConnections := pendingNodeConnections c |}.

Definition set_m_finishedNodes (f : list node -> list node) (c : AudioContext) : AudioContext :=
  {| m_isStopScheduled := m_isStopScheduled c; m_isInitialized := m_isInitialized c;
     m_isAudioThreadFinished := m_isAudioThreadFinished c;
     m_destinationNode := m_destinationNode c;
     m_isDeletionScheduled := m_isDeletionScheduled c;
     m_automaticPullNodesNeedUpdating := m_automaticPullNodesNeedUpdating c;
     m_connectionCount := m_connectionCount c; m_isOfflineContext := m_isOfflineContext c;
     m_activeSourceCount := m_activeSourceCount c;
     m_hrtfDatabaseLoader := m_hrtfDatabaseLoader c; m_renderTarget := m_renderTarget c;
     m_referencedNodes := m_referencedNodes c;
     m_finishedNodes := f (m_finishedNodes c); m_nodesToDelete := m_nodesToDelete c;
     m_nodesMarkedForDeletion := m_nodesMarkedForDeletion c;
     m_automaticPullNodes := m_automaticPullNodes c;
     m_renderingAutomaticPullNodes := m_renderingAutomaticPullNodes c;
     automaticSources := automaticSources c;
     pendingConnections := pendingConnections c;
     pendingNodeConnections := pendingNodeConnections c |}.

(** [m_nodesToDelete], [m_nodesMarkedForDeletion] and
    [m_isDeletionScheduled], which change together. *)
Definition set_deletion (del marked : list node) (sched : bool) (c : AudioContext) : AudioContext :=
  {| m_isStopScheduled := m_isStopScheduled c; m_isInitialized := m_isInitialized c;
     m_isAudioThreadFinished := m_isAudioThreadFinished c;
     m_destinationNode := m_destinationNode c;
     m_isDeletionScheduled := sched;
     m_automaticPullNodesNeedUpdating := m_automaticPullNodesNeedUpdating c;
     m_connectionCount := m_connectionCount c; m_isOfflineContext := m_isOfflineContext c;
     m_activeSourceCount := m_activeSourceCount c;
     m_hrtfDatabaseLoader := m_hrtfDatabaseLoader c; m_renderTarget := m_renderTarget c;
     m_referencedNodes := m_referencedNodes c;
     m_finishedNodes := m_finishedNodes c; m_nodesToDelete := del;
     m_nodesMarkedForDeletion := marked;
     m_automaticPullNodes := m_automaticPullNodes c;
     m_renderingAutomaticPullNodes := m_renderingAutomaticPullNodes c;
     automaticSources := automaticSources c;
     pendingConnections := pendingConnections c;
     pendingNodeConnections := pendingNodeConnections c |}.

(** The automatic-pull registry: write-side set, read-side snapshot and
    dirty flag. *)
Definition set_automaticPull (pull rendering : list node) (dirty : bool) (c : AudioContext) : AudioContext :=
  {| m_isStopScheduled := m_isStopScheduled c; m_isInitialized := m_isInitialized c;
     m_isAudioThreadFinished := m_isAudioThreadFinished c;
     m_destinationNode := m_destinationNode c;
     m_isDeletionScheduled := m_isDeletionScheduled c;
     m_automaticPullNodesNeedUpdating := dirty;
     m_connectionCount := m_connectionCount c; m_isOfflineContext := m_isOfflineContext c;
     m_activeSourceCount := m_activeSourceCount c;
     m_hrtfDatabaseLoader := m_hrtfDatabaseLoader c; m_renderTarget := m_renderTarget c;
     m_referencedNodes := m_referencedNodes c;
     m_finishedNodes := m_finishedNodes c; m_nodesToDelete := m_nodesToDelete c;
     m_nodesMarkedForDeletion := m_nodesMarkedForDeletion c;
     m_automaticPullNodes := pull;
     m_renderingAutomaticPullNodes := rendering;
     automaticSources := automaticSources c;
     pendingConnections := pendingConnections c;
     pendingNodeConnections := pendingNodeConnections c |}.

Definition set_automaticSources (l : list node) (c : AudioContext) : AudioContext :=
  {| m_isStopScheduled := m_isStopScheduled c; m_isInitialized := m_isInitialized c;
     m_isAudioThreadFinished := m_isAudioThreadFinished c;
     m_destinationNode := m_destinationNode c;
     m_isDeletionScheduled := m_isDeletionScheduled c;
     m_automaticPullNodesNeedUpdating := m_automaticPullNodesNeedUpdating c;
     m_connectionCount := m_connectionCount c; m_isOfflineContext := m_isOfflineContext c;
     m_activeSourceCount := m_activeSourceCount c;
     m_hrtfDatabaseLoader := m_hrtfDatabaseLoader c; m_renderTarget := m_renderTarget c;
     m_referencedNodes := m_referencedNodes c;
     m_finishedNodes := m_finishedNodes c; m_nodesToDelete := m_nodesToDelete c;
     m_nodesMarkedForDeletion := m_nodesMarkedForDeletion c;
     m_automaticPullNodes := m_automaticPullNodes c;
     m_renderingAutomaticPullNodes := m_renderingAutomaticPullNodes c;
     automaticSources := l;
     pendingConnections := pendingConnections c;
     pendingNodeConnections := pendingNodeConnections c |}.

Definition set_pendingConnections (l : list PendingConnection.t) (c : AudioContext) : AudioContext :=
  {| m_isStopScheduled := m_isStopScheduled c; m_isInitialized := m_isInitialized c;
     m_isAudioThreadFinished := m_isAudioThreadFinished c;
     m_destinationNode := m_destinationNode c;
     m_isDeletionScheduled := m_isDeletionScheduled c;
     m_automaticPullNodesNeedUpdating := m_automaticPullNodesNeedUpdating c;
     m_connectionCount := m_connectionCount c; m_isOfflineContext := m_isOfflineContext c;
     m_activeSourceCount := m_activeSourceCount c;
     m_hrtfDatabaseLoader := m_hrtfDatabaseLoader c; m_renderTarget := m_renderTarget c;
     m_referencedNodes := m_referencedNodes c;
     m_finishedNodes := m_finishedNodes c; m_nodesToDelete := m_nodesToDelete c;
     m_nodesMarkedForDeletion := m_nodesMarkedForDeletion c;
     m_automaticPullNodes := m_automaticPullNodes c;
     m_renderingAutomaticPullNodes := m_renderingAutomaticPullNodes c;
     automaticSources := automaticSources c;
     pendingConnections := l;
     pendingNodeConnections := pendingNodeConnections c |}.

Definition set_pendingNodeConnections (l : list PendingNodeConnection.t) (c : AudioContext) : AudioContext :=
  {| m_isStopScheduled := m_isStopScheduled c; m_isInitialized := m_isInitialized c;
     m_isAudioThreadFinished := m_isAudioThreadFinished c;
     m_destinationNode := m_destinationNode c;
     m_isDeletionScheduled := m_isDeletionScheduled c;
     m_automaticPullNodesNeedUpdating := m_automaticPullNodesNeedUpdating c;
     m_connectionCount := m_connectionCount c; m_isOfflineContext := m_isOfflineContext c;
     m_activeSourceCount := m_activeSourceCount c;
     m_hrtfDatabaseLoader := m_hrtfDatabaseLoader c; m_renderTarget := m_renderTarget c;
     m_referencedNodes := m_referencedNodes c;
     m_finishedNodes := m_finishedNodes c; m_nodesToDelete := m_nodesToDelete c;
     m_nodesMarkedForDeletion := m_nodesMarkedForDeletion c;
     m_automaticPullNodes := m_automaticPullNodes c;
     m_renderingAutomaticPullNodes := m_renderingAutomaticPullNodes c;
     automaticSources := automaticSources c;
     pendingConnections := pendingConnections c;
     pendingNodeConnections := l |}.

Definition on_ctx (f : AudioContext -> AudioContext) (w : World) : World :=
  {| ctx := f (ctx w); nodes := nodes w |}.

Definition on_nodes (f : AudioNodes -> AudioNodes) (w : World) : World :=
  {| ctx := ctx w; nodes := f (nodes w) |}.

(** ** Creation *)

Definition isSampleRateRangeGood (sampleRate : float) : bool :=
  PrimFloat.leb 44100%float sampleRate && PrimFloat.leb sampleRate 96000%float.

(** Don't allow more than this number of simultaneous AudioContexts talking
    to hardware. *)
Definition MaxHardwareContexts : Z := 4.

(** Constructor for rendering to the audio hardware. *)
Definition AudioContext_hardware : AudioContext :=
  {| m_isStopScheduled := false; m_isInitialized := false;
     m_isAudioThreadFinished := false; m_destinationNode := None;
     m_isDeletionScheduled := false;
     m_automaticPullNodesNeedUpdating := false;
     m_connectionCount := 0; m_isOfflineContext := false;
     m_activeSourceCount := 0;
     m_hrtfDatabaseLoader := None; m_renderTarget := None;
     m_referencedNodes := []; m_finishedNodes := []; m_nodesToDelete := [];
     m_nodesMarkedForDeletion := []; m_automaticPullNodes := [];
     m_renderingAutomaticPullNodes := []; automaticSources := [];
     pendingConnections := []; pendingNodeConnections := [] |}.

(** Constructor for offline (non-realtime) rendering. Its initialiser list
    leaves [m_isDeletionScheduled] out: [indeterminate] is the value the
    member happens to hold. *)
Definition AudioContext_offline (indeterminate : bool)
    (numberOfChannels numberOfFrames : Z) (sampleRate : float) : AudioContext :=
  {| m_isStopScheduled := false; m_isInitialized := false;
     m_isAudioThreadFinished := false; m_destinationNode := None;
     m_isDeletionScheduled := indeterminate;
     m_automaticPullNodesNeedUpdating := false;
     m_connectionCount := 0; m_isOfflineContext := true;
     m_activeSourceCount := 0;
     m_hrtfDatabaseLoader := Some sampleRate;
     m_renderTarget :=
       Some {| numberOfChannels := numberOfChannels;
               numberOfFrames := numberOfFrames;
               bufferSampleRate := sampleRate |};
     m_referencedNodes := []; m_finishedNodes := []; m_nodesToDelete := [];
     m_nodesMarkedForDeletion := []; m_automaticPullNodes := [];
     m_renderingAutomaticPullNodes := []; automaticSources := [];
     pendingConnections := []; pendingNodeConnections := [] |}.

(** [AudioContext::create]: [s_hardwareContextCount] is the static count of
    contexts talking to hardware; the result is the new context, or [None]
    for the null pointer. The [ExceptionCode&] is unnamed and untouched. *)
Definition create (s_hardwareContextCount : Z) : option AudioContext :=
  if bool_decide (s_hardwareContextCount >= MaxHardwareContexts) then None
  else Some AudioContext_hardware.

(** [AudioContext::createOfflineContext]: [loader] is the singleton
    [HRTFDatabaseLoader::loader()], by its [databaseSampleRate()], if it
    exists already; the result pairs the returned pointer with the value
    of [ec] on return. *)
Definition createOfflineContext (indeterminate : bool) (loader : option float)
    (numberOfChannels numberOfFrames : Z) (sampleRate : float) (ec : ExceptionCode)
  : option AudioContext * ExceptionCode :=
  if bool_decide (numberOfChannels > 10)
     || negb (isSampleRateRangeGood sampleRate)
     || match loader with
        | Some databaseSampleRate => negb (PrimFloat.eqb databaseSampleRate sampleRate)
        | None => false
        end
  then (None, SYNTAX_ERR)
  else (Some (AudioContext_offline indeterminate numberOfChannels numberOfFrames sampleRate), ec).

(** ** Junctions *)

(** Modelled from the spec: [AudioNodeInput::connect(g, junction, toOutput)],
    whose file is not among the sources. A junction "holds the set of
    contributing output edges" and its dirty flag is "set on any edge
    add/remove": linking an edge that is there already changes nothing, and
    a null port links nothing. *)
Definition AudioNodeInput_connect (junction : option AudioNodeInput)
    (toOutput : option AudioNodeOutput) (a : AudioNodes) : AudioNodes :=
  match junction, toOutput with
  | Some i, Some o =>
      if decide ((o, i) ∈ junctions a) then a
      else set_junctions ({[ (o, i) ]} ∪ junctions a) ({[ i ]} ∪ dirtyJunctions a) a
  | _, _ => a
  end.

(** Modelled from the spec:
    [AudioNodeInput::disconnect(g, junction, toOutput)], whose file is not
    among the sources. Unlinking removes the edge from the junction's set
    and sets its dirty flag; unlinking an edge that is not there changes
    nothing. *)
Definition AudioNodeInput_disconnect (junction : option AudioNodeInput)
    (toOutput : option AudioNodeOutput) (a : AudioNodes) : AudioNodes :=
  match junction, toOutput with
  | Some i, Some o =>
      if decide ((o, i) ∈ junctions a)
      then set_junctions (junctions a ∖ {[ (o, i) ]}) ({[ i ]} ∪ dirtyJunctions a) a
      else a
  | _, _ => a
  end.

(** Modelled from the spec: [AudioNodeOutput::disconnectAll(g, toOutput)],
    whose file is not among the sources. Every edge fed by the output goes,
    and each junction that loses one is dirty. *)
Definition AudioNodeOutput_disconnectAll (toOutput : option AudioNodeOutput)
    (a : AudioNodes) : AudioNodes :=
  match toOutput with
  | Some o =>
      let gone : gset Edge := filter (λ e : Edge, e.1 = o) (junctions a) in
      set_junctions (junctions a ∖ gone) (set_map (D:=gset AudioNodeInput) snd gone ∪ dirtyJunctions a) a
  | None => a
  end.

(** Modelled from the spec: [AudioNode::disconnect(context, outputIndex, ec)]
    on node [n], whose file is not among the sources: the "disconnect all"
    of one output of the node. *)
Definition AudioNode_disconnect (n : node) (outputIndex : nat) (a : AudioNodes) : AudioNodes :=
  AudioNodeOutput_disconnectAll (Some (n, outputIndex)) a.

(** Modelled from the spec:
    [AudioSummingJunction::handleDirtyAudioSummingJunctions(r)], whose file
    is not among the sources: the render-path resolution step, by which
    alone a dirty flag is cleared. *)
Definition handleDirtyAudioSummingJunctions (a : AudioNodes) : AudioNodes :=
  set_junctions (junctions a) ∅ a.

(** ** Reference counts and the reference list *)

(** [n->m_connectionRefCount]. *)
Definition connectionRefCount (n : node) (a : AudioNodes) : Z :=
  default 0 (m_connectionRefCount a !! n).

(** [atomicIncrement(&n->m_connectionRefCount)]. *)
Definition incrementConnectionRefCount (n : node) (a : AudioNodes) : AudioNodes :=
  set_m_connectionRefCount (insert n (atomicIncrement (connectionRefCount n a))) a.

(** [atomicDecrement(&n->m_connectionRefCount)]. *)
Definition decrementConnectionRefCount (n : node) (a : AudioNodes) : AudioNodes :=
  set_m_connectionRefCount (insert n (atomicDecrement (connectionRefCount n a))) a.

(** [n->enableOutputsIfNecessary(g)] and [n->disableOutputsIfNecessary(g)]. *)
Definition enableOutputs (n : node) (a : AudioNodes) : AudioNodes :=
  set_internals (enableOutputsIfNecessary n (connectionRefCount n a)) a.

Definition disableOutputs (n : node) (a : AudioNodes) : AudioNodes :=
  set_internals (disableOutputsIfNecessary n (connectionRefCount n a)) a.

(** [std::vector::erase] at the first element equal to [n], if any. *)
Fixpoint erase_first (n : node) (l : list node) : list node :=
  match l with
  | [] => []
  | x :: l' => if decide (n = x) then l' else x :: erase_first n l'
  end.

Definition refNode (n : node) (c : AudioContext) : AudioContext :=
  set_m_referencedNodes (λ l, l ++ [n]) c.

Definition derefNode (n : node) (c : AudioContext) : AudioContext :=
  (* ASSERT(g.context()); *)
  set_m_referencedNodes (erase_first n) c.

Definition derefFinishedSourceNodes (c : AudioContext) : AudioContext :=
  (* ASSERT(g.context()); *)
  set_m_finishedNodes (λ _, [])
    (foldl (λ c' n, derefNode n c') c (m_finishedNodes c)).

(** [notifyNodeFinishedProcessing(r, node)]: the handle is taken from the
    reference list; an unreferenced node only trips the assertion. *)
Definition notifyNodeFinishedProcessing (n : node) (c : AudioContext) : AudioContext :=
  (* ASSERT(r.context()); *)
  if decide (n ∈ m_referencedNodes c)
  then set_m_finishedNodes (λ l, l ++ [n]) c
  else c (* ASSERT(0 == "node to finish not referenced"); *).

(** ** Staging requests *)

Definition connect (from to : option node) (c : AudioContext) : AudioContext :=
  set_pendingNodeConnections
    (pendingNodeConnections c ++ [PendingNodeConnection.mk from to true]) c.

Definition disconnect (from to : option node) (c : AudioContext) : AudioContext :=
  set_pendingNodeConnections
    (pendingNodeConnections c ++ [PendingNodeConnection.mk from to false]) c.

(** [disconnect(from)]. *)
Definition disconnect_node (from : option node) (c : AudioContext) : AudioContext :=
  set_pendingNodeConnections
    (pendingNodeConnections c ++ [PendingNodeConnection.mk from None false]) c.

(** [connect(fromInput, toOutput)]. *)
Definition connect_ports (fromInput : option AudioNodeInput)
    (toOutput : option AudioNodeOutput) (c : AudioContext) : AudioContext :=
  set_pendingConnections
    (pendingConnections c ++ [PendingConnection.mk fromInput toOutput true]) c.

(** [disconnect(toOutput)]. *)
Definition disconnect_output (toOutput : option AudioNodeOutput) (c : AudioContext) : AudioContext :=
  set_pendingConnections
    (pendingConnections c ++ [PendingConnection.mk None toOutput false]) c.

(** ** The mutation-application cycle *)

(** A [for] loop over a container whose body may hit undefined behaviour. *)
Fixpoint for_each {A} (body : A -> World -> option World) (l : list A) (w : World)
  : option World :=
  match l with
  | [] => Some w
  | i :: l' => w' ← body i w; for_each body l' w'
  end.

(** The body of the first loop of [update]. *)
Definition applyPendingConnection (i : PendingConnection.t) (w : World) : World :=
  if PendingConnection.connect i
  then on_nodes (AudioNodeInput_connect (PendingConnection.fromInput i) (PendingConnection.toOutput i)) w
  else on_nodes (AudioNodeOutput_disconnectAll (PendingConnection.toOutput i)) w.

(** The connect branch of the second loop, both pointers being non-null. *)
Definition connectNodes (from to : node) (w : World) : World :=
  let w := on_nodes (AudioNodeInput_connect (Some (to, 0%nat)) (Some (from, 0%nat))) w in
  let w := on_ctx (refNode from) w in
  let w := on_ctx (refNode to) w in
  let w := on_nodes (incrementConnectionRefCount from) w in
  let w := on_nodes (incrementConnectionRefCount to) w in
  let w := on_nodes (enableOutputs from) w in
  on_nodes (enableOutputs to) w.

(** The disconnect branch taken when [i.from] is null. *)
Definition disconnectAllOf (to : node) (w : World) : World :=
  (* ExceptionCode ec = NO_ERR; *)
  let w := on_nodes (decrementConnectionRefCount to) w in
  let w := on_nodes (AudioNode_disconnect to 0) w in
  on_nodes (disableOutputs to) w.

(** The disconnect branch taken when [i.from] is non-null. *)
Definition disconnectNodes (from to : node) (w : World) : World :=
  let w := on_nodes (decrementConnectionRefCount from) w in
  let w := on_nodes (decrementConnectionRefCount to) w in
  let w := on_nodes (AudioNodeInput_disconnect (Some (from, 0%nat)) (Some (to, 0%nat))) w in
  let w := on_ctx (derefNode from) w in
  let w := on_ctx (derefNode to) w in
  let w := on_nodes (disableOutputs from) w in
  on_nodes (disableOutputs to) w.

(** The body of the second loop of [update]; [i.from->] and [i.to->]
    dereference. *)
Definition applyPendingNodeConnection (i : PendingNodeConnection.t) (w : World)
  : option World :=
  if PendingNodeConnection.connect i then
    to ← PendingNodeConnection.to i;
    from ← PendingNodeConnection.from i;
    Some (connectNodes from to w)
  else
    match PendingNodeConnection.from i with
    | None =>
        to ← PendingNodeConnection.to i;
        Some (disconnectAllOf to w)
    | Some from =>
        to ← PendingNodeConnection.to i;
        Some (disconnectNodes from to w)
    end.

Definition update (w : World) : option World :=
  let w := foldl (λ w' i, applyPendingConnection i w') w (pendingConnections (ctx w)) in
  let w := on_ctx (set_pendingConnections []) w in
  w ← for_each applyPendingNodeConnection (pendingNodeConnections (ctx w)) w;
  let w := on_ctx (set_pendingNodeConnections []) w in
  (* Dynamically clean up nodes which are no longer needed. *)
  Some (on_ctx derefFinishedSourceNodes w).

(** ** The automatic-pull registry *)

(** [std::set::insert] into the ascending sequence of the set's elements. *)
Fixpoint set_insert (n : node) (l : list node) : list node :=
  match l with
  | [] => [n]
  | x :: l' =>
      if decide (n < x)%nat then n :: l
      else if decide (n = x) then l
      else x :: set_insert n l'
  end.

Definition addAutomaticPullNode (n : node) (c : AudioContext) : AudioContext :=
  if decide (n ∉ m_automaticPullNodes c)
  then set_automaticPull (set_insert n (m_automaticPullNodes c))
         (m_renderingAutomaticPullNodes c) true c
  else c.

Definition removeAutomaticPullNode (n : node) (c : AudioContext) : AudioContext :=
  if decide (n ∈ m_automaticPullNodes c)
  then set_automaticPull (erase_first n (m_automaticPullNodes c))
         (m_renderingAutomaticPullNodes c) true c
  else c.

Definition updateAutomaticPullNodes (c : AudioContext) : AudioContext :=
  if m_automaticPullNodesNeedUpdating c
  then
    (* Copy from m_automaticPullNodes to m_renderingAutomaticPullNodes. *)
    set_automaticPull (m_automaticPullNodes c) (m_automaticPullNodes c) false c
  else c.

(** ** The render-path hooks *)

(** The loop of [handleAutomaticSources]: after [erase] the iterator stands
    on the next element, and the loop's [++i] steps over it. *)
Fixpoint eraseFinishedSources (fin : node -> bool) (l : list node) : list node :=
  match l with
  | [] => []
  | x :: l' =>
      if fin x then
        match l' with
        | [] => []
        | y :: l'' => y :: eraseFinishedSources fin l''
        end
      else x :: eraseFinishedSources fin l'
  end.

Definition handleAutomaticSources (w : World) : World :=
  on_ctx (λ c, set_automaticSources
                 (eraseFinishedSources (λ n, hasFinished n (internals (nodes w)))
                    (automaticSources c)) c) w.

Definition holdSourceNodeUntilFinished (sn : node) (c : AudioContext) : AudioContext :=
  set_automaticSources (automaticSources c ++ [sn]) c.

Definition handlePreRenderTasks (w : World) : World :=
  (* ASSERT(r.context()); *)
  (* At the beginning of every render quantum, try to update the internal
     rendering graph state (from main thread changes). *)
  let w := on_nodes handleDirtyAudioSummingJunctions w in
  on_ctx updateAutomaticPullNodes w.

Definition markForDeletion (n : node) (c : AudioContext) : AudioContext :=
  if decide (n ∈ m_referencedNodes c)
  then set_deletion (m_nodesToDelete c) (m_nodesMarkedForDeletion c ++ [n])
         (m_isDeletionScheduled c) c
  else c (* ASSERT(0 == "Attempting to delete unreferenced node"); *).

(** [scheduleNodeDeletion(r)]; [r_context] tells whether [r.context()] is
    non-null. [callOnMainThread] leaves [deleteMarkedNodes] to the main
    thread, for later. *)
Definition scheduleNodeDeletion (r_context : bool) (c : AudioContext) : AudioContext :=
  let isGood := m_isInitialized c && r_context in
  if negb isGood then c
  else
    if negb (bool_decide (m_nodesMarkedForDeletion c = [])) && negb (m_isDeletionScheduled c)
    then set_deletion (m_nodesToDelete c ++ m_nodesMarkedForDeletion c) [] true c
    else c.

Definition deleteMarkedNodes (c : AudioContext) : AudioContext :=
  set_deletion [] (m_nodesMarkedForDeletion c) false c.

Definition handlePostRenderTasks (r_context : bool) (w : World) : World :=
  (* ASSERT(r.context()); *)
  (* Don't delete in the real-time thread. *)
  let w := on_ctx (scheduleNodeDeletion r_context) w in
  let w := on_nodes handleDirtyAudioSummingJunctions w in
  let w := on_ctx updateAutomaticPullNodes w in
  handleAutomaticSources w.

(** ** Initial states *)

(** The graph with no edge, every counter at 0. *)
Definition emptyNodes (i : NodeInternals) : AudioNodes :=
  {| m_connectionRefCount := ∅; junctions := ∅; dirtyJunctions := ∅;
     internals := i |}.

(** A context just constructed, over the empty graph. *)
Definition emptyWorld (i : NodeInternals) : World :=
  {| ctx := AudioContext_hardware; nodes := emptyNodes i |}.

End Scheduler.

(** ** The life cycle of a context *)

(** Modelled from the spec: the member functions of the destination node
    that the context calls; AudioDestinationNode.cpp is not among the
    sources, so they are a parameter of the development. The destination
    device is an external collaborator that "signals start/stop": these
    calls act on what the nodes keep to themselves. *)
Class AudioDestinationImpl `{Impl : AudioNodeImpl} := {
  destination_initialize : node -> NodeInternals -> NodeInternals;
  destination_startRendering : node -> NodeInternals -> NodeInternals;
  destination_uninitialize : node -> NodeInternals -> NodeInternals
}.

Section Lifecycle.
Context `{Dest : AudioDestinationImpl}.

(** [m_isStopScheduled], [m_isInitialized] and [m_isAudioThreadFinished]. *)
Definition set_lifecycle (stopScheduled initialized finished : bool) (c : AudioContext) : AudioContext :=
  {| m_isStopScheduled := stopScheduled; m_isInitialized := initialized;
     m_isAudioThreadFinished := finished;
     m_destinationNode := m_destinationNode c;
     m_isDeletionScheduled := m_isDeletionScheduled c;
     m_automaticPullNodesNeedUpdating := m_automaticPullNodesNeedUpdating c;
     m_connectionCount := m_connectionCount c; m_isOfflineContext := m_isOfflineContext c;
     m_activeSourceCount := m_activeSourceCount c;
     m_hrtfDatabaseLoader := m_hrtfDatabaseLoader c; m_renderTarget := m_renderTarget c;
     m_referencedNodes := m_referencedNodes c;
     m_finishedNodes := m_finishedNodes c; m_nodesToDelete := m_nodesToDelete c;
     m_nodesMarkedForDeletion := m_nodesMarkedForDeletion c;
     m_automaticPullNodes := m_automaticPullNodes c;
     m_renderingAutomaticPullNodes := m_renderingAutomaticPullNodes c;
     automaticSources := automaticSources c;
     pendingConnections := pendingConnections c;
     pendingNodeConnections := pendingNodeConnections c |}.

(** [m_destinationNode]. *)
Definition set_m_destinationNode (d : option node) (c : AudioContext) : AudioContext :=
  {| m_isStopScheduled := m_isStopScheduled c; m_isInitialized := m_isInitialized c;
     m_isAudioThreadFinished := m_isAudioThreadFinished c;
     m_destinationNode := d;
     m_isDeletionScheduled := m_isDeletionScheduled c;
     m_automaticPullNodesNeedUpdating := m_automaticPullNodesNeedUpdating c;
     m_connectionCount := m_connectionCount c; m_isOfflineContext := m_isOfflineContext c;
     m_activeSourceCount := m_activeSourceCount c;
     m_hrtfDatabaseLoader := m_hrtfDatabaseLoader c; m_renderTarget := m_renderTarget c;
     m_referencedNodes := m_referencedNodes c;
     m_finishedNodes := m_finishedNodes c; m_nodesToDelete := m_nodesToDelete c;
     m_nodesMarkedForDeletion := m_nodesMarkedForDeletion c;
     m_automaticPullNodes := m_automaticPullNodes c;
     m_renderingAutomaticPullNodes := m_renderingAutomaticPullNodes c;
     automaticSources := automaticSources c;
     pendingConnections := pendingConnections c;
     pendingNodeConnections := pendingNodeConnections c |}.

(** [m_connectionCount] and [m_activeSourceCount]. *)
Definition set_counts (connectionCount activeSourceCount : Z) (c : AudioContext) : AudioContext :=
  {| m_isStopScheduled := m_isStopScheduled c; m_isInitialized := m_isInitialized c;
     m_isAudioThreadFinished := m_isAudioThreadFinished c;
     m_destinationNode := m_destinationNode c;
     m_isDeletionScheduled := m_isDeletionScheduled c;
     m_automaticPullNodesNeedUpdating := m_automaticPullNodesNeedUpdating c;
     m_connectionCount := connectionCount; m_isOfflineContext := m_isOfflineContext c;
     m_activeSourceCount := activeSourceCount;
     m_hrtfDatabaseLoader := m_hrtfDatabaseLoader c; m_renderTarget := m_renderTarget c;
     m_referencedNodes := m_referencedNodes c;
     m_finishedNodes := m_finishedNodes c; m_nodesToDelete := m_nodesToDelete c;
     m_nodesMarkedForDeletion := m_nodesMarkedForDeletion c;
     m_automaticPullNodes := m_automaticPullNodes c;
     m_renderingAutomaticPullNodes := m_renderingAutomaticPullNodes c;
     automaticSources := automaticSources c;
     pendingConnections := pendingConnections c;
     pendingNodeConnections := pendingNodeConnections c |}.

(** [lazyInitialize]: the static [s_hardwareContextCount] goes in and comes
    out beside the world. *)
Definition lazyInitialize (s_hardwareContextCount : Z) (w : World) : Z * World :=
  if negb (m_isInitialized (ctx w)) then
    (* Don't allow the context to initialize a second time after it's
       already been explicitly uninitialized. *)
    (* ASSERT(!m_isAudioThreadFinished); *)
    if negb (m_isAudioThreadFinished (ctx w)) then
      let '(count, w1) :=
        match m_destinationNode (ctx w) with
        | Some d =>
            let w1 := on_nodes (set_internals (destination_initialize d)) w in
            if negb (m_isOfflineContext (ctx w)) then
              (* This starts the audio thread. *)
              (atomicIncrement s_hardwareContextCount,
               on_nodes (set_internals (destination_startRendering d)) w1)
            else (s_hardwareContextCount, w1)
        | None => (s_hardwareContextCount, w)
        end in
      (count,
       on_ctx (λ c, set_lifecycle (m_isStopScheduled c) true (m_isAudioThreadFinished c) c) w1)
    else (s_hardwareContextCount, w)
  else (s_hardwareContextCount, w).

(** [uninitialize(g)]; [m_destinationNode->] dereferences. *)
Definition uninitialize (s_hardwareContextCount : Z) (w : World) : option (Z * World) :=
  if negb (m_isInitialized (ctx w)) then Some (s_hardwareContextCount, w)
  else
    (* This stops the audio thread and all audio rendering. *)
    d ← m_destinationNode (ctx w);
    let w := on_nodes (set_internals (destination_uninitialize d)) w in
    (* Don't allow the context to initialize a second time after it's
       already been explicitly uninitialized. *)
    let w := on_ctx (λ c, set_lifecycle (m_isStopScheduled c) (m_isInitialized c) true c) w in
    let count :=
      if negb (m_isOfflineContext (ctx w))
      then (* ASSERT(s_hardwareContextCount); *) atomicDecrement s_hardwareContextCount
      else s_hardwareContextCount in
    let w := on_ctx (set_m_referencedNodes (λ _, [])) w in
    Some (count,
          on_ctx (λ c, set_lifecycle (m_isStopScheduled c) false (m_isAudioThreadFinished c) c) w).

Definition isInitialized (c : AudioContext) : bool := m_isInitialized c.

(** The body of the loop of [clear]. *)
Definition clearStep (c : AudioContext) : AudioContext :=
  let c := deleteMarkedNodes c in
  set_deletion (m_nodesToDelete c ++ m_nodesMarkedForDeletion c) []
    (m_isDeletionScheduled c) c.

(** [clear]: the do-while loop, for at most [fuel] rounds; [None] when the
    rounds run out. *)
Fixpoint clear (fuel : nat) (c : AudioContext) : option AudioContext :=
  match fuel with
  | O => None
  | S fuel' =>
      let c := clearStep c in
      if negb (bool_decide (m_nodesToDelete c = [])) then clear fuel' c else Some c
  end.

(** [stop(g)]; [None] for the null destination that [uninitialize]
    dereferences, and for [clear] out of rounds. *)
Definition stop (fuel : nat) (s_hardwareContextCount : Z) (w : World) : option (Z * World) :=
  if m_isStopScheduled (ctx w) then Some (s_hardwareContextCount, w)
  else
    let w := on_ctx (λ c, set_lifecycle true (m_isInitialized c) (m_isAudioThreadFinished c) c) w in
    '(count, w) ← uninitialize s_hardwareContextCount w;
    c ← clear fuel (ctx w);
    Some (count, {| ctx := c; nodes := nodes w |}).

(** [incrementConnectionCount]: a running tally. *)
Definition incrementConnectionCount (c : AudioContext) : AudioContext :=
  set_counts (atomicIncrement (m_connectionCount c)) (m_activeSourceCount c) c.

Definition incrementActiveSourceCount (c : AudioContext) : AudioContext :=
  set_counts (m_connectionCount c) (atomicIncrement (m_activeSourceCount c)) c.

Definition decrementActiveSourceCount (c : AudioContext) : AudioContext :=
  set_counts (m_connectionCount c) (atomicDecrement (m_activeSourceCount c)) c.

End Lifecycle.

(** ** SamplerSound: note names and MIDI note numbers *)

Module SamplerSound.

Inductive exception := out_of_range | invalid_argument.

(** What a call does: return, throw, or hit undefined behaviour. *)
Inductive outcome (A : Type) :=
| Returns (a : A)
| Throws (e : exception)
| Undefined.
Arguments Returns {A} a.
Arguments Throws {A} e.
Arguments Undefined {A}.

Definition midiTranslationArray : list string :=
  ["C"; "C#"; "D"; "D#"; "E"; "F"; "F#"; "G"; "G#"; "A"; "A#"; "B"]%string.

(** [::toupper] in the C locale. *)
Definition toupper (c : ascii) : ascii :=
  let n := nat_of_ascii c in
  if (97 <=? n)%nat && (n <=? 122)%nat then ascii_of_nat (n - 32) else c.

(** [std::transform(s.begin(), s.end(), s.begin(), f)]. *)
Fixpoint transform (f : ascii -> ascii) (s : string) : string :=
  match s with
  | EmptyString => EmptyString
  | String c s' => String (f c) (transform f s')
  end.

(** [std::replace(s.begin(), s.end(), old_value, new_value)]. *)
Definition replace (old_value new_value : ascii) (s : string) : string :=
  transform (λ c, if Ascii.eqb c old_value then new_value else c) s.

(** [std::stoi] on a string of one character: a decimal digit converts,
    anything else (a sign or a blank has no digit after it) throws
    [std::invalid_argument]. *)
Definition stoi (s : string) : option Z :=
  match s with
  | String c EmptyString =>
      let n := nat_of_ascii c in
      if (48 <=? n)%nat && (n <=? 57)%nat then Some (Z.of_nat (n - 48)) else None
  | _ => None
  end.

(** [std::to_string(int)]. *)
Definition to_string (z : Z) : string := NilZero.string_of_int (Z.to_int z).

(** The search loop: the first index whose name equals [noteString], or
    the initial [-1]. *)
Fixpoint notePosition (noteString : string) (names : list string) (i : Z) : Z :=
  match names with
  | [] => -1
  | name :: names' =>
      if String.eqb noteString name then i
      else notePosition noteString names' (i + 1)
  end.

(** Ex: F#6. Assumes uppercase note names, hash symbol, and octave. *)
Definition getMIDIFromNoteString (noteName : string) : outcome Z :=
  match String.length noteName with
  | O =>
      (* noteName.length() - 1 is the largest size_t: substr throws *)
      Throws out_of_range
  | S last =>
      (* Octave is always last character, as an integer *)
      let octaveString := substring last 1 noteName in
      match stoi octaveString with
      | None => Throws invalid_argument
      | Some octave =>
          let noteString := substring 0 last noteName in
          (* Uppercase the incoming note *)
          let noteString := transform toupper noteString in
          (* IF we don't use # notation, convert S to # *)
          let noteString := replace "S" "#" noteString in
          (* Note name is now the first or second character *)
          let notePos := notePosition noteString midiTranslationArray 0 in
          let value := octave * 12 + notePos in
          (* uint8_t(double): a value that truncates outside 0..255 is
             undefined *)
          if bool_decide (0 <= value <= 255) then Returns value else Undefined
      end
  end.

(** [note] is a [uint8_t], 0..255. *)
Definition getNoteStringFromMIDI (note : Z) : string :=
  let octave := note / 12 - 1 in
  let positionInOctave := note `mod` 12 in
  let originalNote := nth (Z.to_nat positionInOctave) midiTranslationArray ""%string in
  let originalNote := replace "#" "S" originalNote in
  (originalNote ++ to_string octave)%string.

End SamplerSound.

(** ** A node implementation to run the scheduler on

    The internals are the set of nodes whose outputs are disabled and the
    set of sources that have finished. Outputs are enabled when the node
    has a connection, and disabled when at most one is left. *)
#[export] Instance flagNodes : AudioNodeImpl := {|
  NodeInternals := gset nat * gset nat;
  enableOutputsIfNecessary n count s :=
    if bool_decide (n ∈ s.1) && bool_decide (count > 0) then (s.1 ∖ {[ n ]}, s.2) else s;
  disableOutputsIfNecessary n count s :=
    if bool_decide (count <= 1) && negb (bool_decide (n ∈ s.1)) then ({[ n ]} ∪ s.1, s.2) else s;
  hasFinished n s := bool_decide (n ∈ s.2)
|}.

(** A destination for the node implementation above: initialising it
    enables its outputs, uninitialising it marks it finished. *)
#[export] Instance flagDestination : AudioDestinationImpl := {|
  destination_initialize d s := (s.1 ∖ {[ d ]}, s.2);
  destination_startRendering d s := s;
  destination_uninitialize d s := (s.1, {[ d ]} ∪ s.2)
|}.

(** The concrete world without nodes disabled or finished. *)
Definition world0 : World := emptyWorld (∅, ∅).

(** A registration waiting for its snapshot. *)
Definition worldWithPullNode : World := on_ctx (addAutomaticPullNode 7) world0.

(** Nodes 1 and 2 connected, by one cycle from the empty graph. *)
Definition worldConnected : World := connectNodes 1 2 world0.

(** An initialised context, one with node 1 marked for deletion, the other
    with nothing marked. *)
Definition contextInitialised : AudioContext :=
  set_lifecycle false true false (ctx worldConnected).

Definition contextWithMarkedNode : AudioContext := markForDeletion 1 contextInitialised.

(** A hardware context that was given node 9 as its destination. *)
Definition worldWithDestination : World := on_ctx (set_m_destinationNode (Some 9%nat)) world0.

(** Sources 1, 2 and 3 held until they finish, 1 and 2 having finished. *)
Definition worldWithSources : World :=
  on_ctx (λ c, holdSourceNodeUntilFinished 3
                 (holdSourceNodeUntilFinished 2 (holdSourceNodeUntilFinished 1 c)))
    (emptyWorld (∅, {[ 1%nat; 2%nat ]})).

(** ** Vocabulary of the properties *)

(** A sample rate lies in the inclusive range from 44100 to 96000. *)
Definition inRange (sampleRate : float) : Prop :=
  PrimFloat.leb 44100%float sampleRate = true /\ PrimFloat.leb sampleRate 96000%float = true.

(** The loader exists already, for another sample rate. *)
Definition loaderDiffers (loader : option float) (sampleRate : float) : Prop :=
  exists databaseSampleRate,
    loader = Some databaseSampleRate /\ PrimFloat.eqb databaseSampleRate sampleRate = false.

(** A request as application code makes it, with both handles non-null. *)
Inductive Request :=
| Connect (from to : node)
| Disconnect (from to : node).

(** Staging a request: the call of the matching member function. *)
Definition submit (r : Request) (c : AudioContext) : AudioContext :=
  match r with
  | Connect from to => connect (Some from) (Some to) c
  | Disconnect from to => disconnect (Some from) (Some to) c
  end.

Definition submitAll (rs : list Request) (c : AudioContext) : AudioContext :=
  foldl (λ c' r, submit r c') c rs.

(** The queue entry a request is staged as. *)
Definition staged (r : Request) : PendingNodeConnection.t :=
  match r with
  | Connect from to => PendingNodeConnection.mk (Some from) (Some to) true
  | Disconnect from to => PendingNodeConnection.mk (Some from) (Some to) false
  end.

(** A request on ports, as application code makes it: [connect(fromInput,
    toOutput)] or [disconnect(toOutput)]. *)
Inductive PortRequest :=
| ConnectPorts (fromInput : option AudioNodeInput) (toOutput : option AudioNodeOutput)
| DisconnectOutput (toOutput : option AudioNodeOutput).

Definition submitPort (p : PortRequest) (c : AudioContext) : AudioContext :=
  match p with
  | ConnectPorts fromInput toOutput => connect_ports fromInput toOutput c
  | DisconnectOutput toOutput => disconnect_output toOutput c
  end.

(** The queue entry a port request is staged as. *)
Definition stagedPort (p : PortRequest) : PendingConnection.t :=
  match p with
  | ConnectPorts fromInput toOutput => PendingConnection.mk fromInput toOutput true
  | DisconnectOutput toOutput => PendingConnection.mk None toOutput false
  end.

(** What one thread submits, call after call: requests on nodes and
    requests on ports, in any interleaving. *)
Inductive Submission :=
| OnNodes (r : Request)
| OnPorts (p : PortRequest).

Definition submitEach (ms : list Submission) (c : AudioContext) : AudioContext :=
  foldl (λ c' m, match m with OnNodes r => submit r c' | OnPorts p => submitPort p c' end) c ms.

(** The requests on nodes among the submissions, in their order. *)
Fixpoint nodeRequests (ms : list Submission) : list Request :=
  match ms with
  | [] => []
  | OnNodes r :: ms' => r :: nodeRequests ms'
  | OnPorts _ :: ms' => nodeRequests ms'
  end.

(** The requests on ports among the submissions, in their order. *)
Fixpoint portRequests (ms : list Submission) : list PortRequest :=
  match ms with
  | [] => []
  | OnNodes _ :: ms' => portRequests ms'
  | OnPorts p :: ms' => p :: portRequests ms'
  end.

Section Vocabulary.
Context `{Impl : AudioNodeImpl}.


(** What applying one request to the graph means. *)
Definition applyRequest (r : Request) (w : World) : World :=
  match r with
  | Connect from to => connectNodes from to w
  | Disconnect from to => disconnectNodes from to w
  end.

(** The first loop of [update], which empties the queue of port requests. *)
Definition drainConnections (w : World) : World :=
  on_ctx (set_pendingConnections [])
    (foldl (λ w' i, applyPendingConnection i w') w (pendingConnections (ctx w))).

(** Applying requests one after the other, first to last. *)
Definition applyAll (rs : list Request) (w : World) : World :=
  foldl (λ w' r, applyRequest r w') w rs.

(** Applying port requests one after the other, first to last. *)
Definition applyPorts (ps : list PortRequest) (w : World) : World :=
  foldl (λ w' p, applyPendingConnection (stagedPort p) w') w ps.

(** Applying every submission in the order of the calls. *)
Definition applyEach (ms : list Submission) (w : World) : World :=
  foldl (λ w' m, match m with
                 | OnNodes r => applyRequest r w'
                 | OnPorts p => applyPendingConnection (stagedPort p) w'
                 end) w ms.

(** Nothing is staged and no finished node waits to be harvested. *)
Definition quiescent (c : AudioContext) : Prop :=
  pendingConnections c = [] /\ pendingNodeConnections c = [] /\ m_finishedNodes c = [].

(** The invariant of the data model: a node with a positive connection
    reference count is in the reference list. Counters not in the map
    are 0. *)
Definition referencedWhileConnected (w : World) : Prop :=
  map_Forall (λ n k, 0 < k -> n ∈ m_referencedNodes (ctx w))
    (m_connectionRefCount (nodes w)).

(** Every counter is an [int] and is at most the number of entries its
    node has in the reference list. *)
Definition countedInReferences (w : World) : Prop :=
  map_Forall (λ n k, INT_MIN <= k <= INT_MAX /\
                     k <= Z.of_nat (count_occ Nat.eq_dec (m_referencedNodes (ctx w)) n))
    (m_connectionRefCount (nodes w)).

End Vocabulary.

(** A connect on nodes 1 and 2 followed by a disconnect of the output of
    node 1. *)
Definition connectThenDisconnectOutput : list Submission :=
  [OnNodes (Connect 1 2); OnPorts (DisconnectOutput (Some (1%nat, 0%nat)))].

(** Connecting a note number to its name and back. *)
Definition noteRoundTrip (note : Z) : SamplerSound.outcome Z :=
  SamplerSound.getMIDIFromNoteString (SamplerSound.getNoteStringFromMIDI note).

(** A decimal digit, as [std::stoi] accepts it. *)
Definition isDigit (c : ascii) : bool :=
  (48 <=? nat_of_ascii c)%nat && (nat_of_ascii c <=? 57)%nat.

(** The digit of a number below ten. *)
Definition digit (d : nat) : ascii := ascii_of_nat (48 + d).

(** The note part of a name as the search loop sees it: uppercased, with
    S read as the hash symbol. *)
Definition normalizedNote (noteString : string) : string :=
  SamplerSound.replace "S" "#" (SamplerSound.transform SamplerSound.toupper noteString).

(** Every entry of [l] that has not finished. *)
Definition unfinished (fin : node -> bool) (l : list node) : list node :=
  filter (λ n, fin n = false) l.

(** The read-side snapshot equals the write-side set unless the dirty flag
    says otherwise. *)
Definition snapshotInSync (c : AudioContext) : Prop :=
  m_automaticPullNodesNeedUpdating c = false ->
  m_renderingAutomaticPullNodes c = m_automaticPullNodes c.

(** The invariant of [std::set]: strictly ascending. *)
Definition ascending (l : list node) : Prop := StronglySorted lt l.

(** The nodes waiting to be destroyed, scheduled or only marked. *)
Definition pendingDeletions (c : AudioContext) : list node :=
  m_nodesToDelete c ++ m_nodesMarkedForDeletion c.

(** The number of entries a node has in the reference list. *)
Definition referenceEntries (n : node) (c : AudioContext) : nat :=
  count_occ Nat.eq_dec (m_referencedNodes c) n.

(** * Properties *)

Section Properties.
Context `{Impl : AudioNodeImpl}.
Implicit Types (w : World) (c : AudioContext) (a : AudioNodes).

(** ** Creation *)

(** C7: [create] returns null, constructing nothing, whenever the count of
    hardware contexts has reached the maximum of 4, and returns a freshly
    constructed hardware context below it. *)
Theorem create_reports_exhaustion (s_hardwareContextCount : Z) :
  MaxHardwareContexts = 4 /\
  (s_hardwareContextCount >= 4 -> create s_hardwareContextCount = None) /\
  (s_hardwareContextCount < 4 ->
   create s_hardwareContextCount = Some AudioContext_hardware).
Proof.
  unfold create, MaxHardwareContexts. split; [reflexivity|].
  split; intros H; case_bool_decide; (reflexivity || lia).
Qed.

(** C9: [createOfflineContext] fails with [SYNTAX_ERR] and null when there
    are more than 10 channels, or the sample rate is outside 44100..96000,
    or an existing loader has another sample rate; otherwise it leaves [ec]
    alone and returns a freshly constructed offline context. *)
Theorem createOfflineContext_validates (indeterminate : bool) (loader : option float)
    (numberOfChannels numberOfFrames : Z) (sampleRate : float) (ec : ExceptionCode) :
  (numberOfChannels > 10 \/ ~ inRange sampleRate \/ loaderDiffers loader sampleRate ->
   createOfflineContext indeterminate loader numberOfChannels numberOfFrames sampleRate ec
   = (None, SYNTAX_ERR)) /\
  (~ (numberOfChannels > 10 \/ ~ inRange sampleRate \/ loaderDiffers loader sampleRate) ->
   createOfflineContext indeterminate loader numberOfChannels numberOfFrames sampleRate ec
   = (Some (AudioContext_offline indeterminate numberOfChannels numberOfFrames sampleRate), ec)).
Proof.
  unfold createOfflineContext, isSampleRateRangeGood, inRange, loaderDiffers.
  case_bool_decide as Hch; simpl.
  { split; [reflexivity|]. intros Hn. exfalso. apply Hn. by left. }
  destruct (PrimFloat.leb 44100 sampleRate) eqn:Hlo; simpl;
    [|split; [reflexivity|]; intros Hn; exfalso; apply Hn; right; left; intros [? ?]; discriminate].
  destruct (PrimFloat.leb sampleRate 96000) eqn:Hhi; simpl;
    [|split; [reflexivity|]; intros Hn; exfalso; apply Hn; right; left; intros [? ?]; discriminate].
  destruct loader as [r|]; simpl.
  - destruct (PrimFloat.eqb r sampleRate) eqn:Heq; simpl.
    + split; [|reflexivity].
      intros [?|[Hr|(r' & Hr' & Hne)]]; [lia|exfalso; by apply Hr|].
      injection Hr' as <-. congruence.
    + split; [reflexivity|]. intros Hn. exfalso. apply Hn. right; right. eauto.
  - split; [|reflexivity].
    intros [?|[Hr|(r' & Hr' & _)]]; [lia|exfalso; by apply Hr|discriminate].
Qed.

(** ** The automatic-pull registry *)

Lemma elem_of_set_insert (n x : nat) (l : list nat) :
  x ∈ set_insert n l <-> x = n \/ x ∈ l.
Proof.
  induction l as [|y l IH]; simpl.
  - rewrite list_elem_of_singleton, elem_of_nil. tauto.
  - repeat case_decide; subst; rewrite ?elem_of_cons, ?IH; tauto.
Qed.

Lemma length_erase_first (n : nat) (l : list nat) :
  n ∈ l -> S (length (erase_first n l)) = length l.
Proof.
  induction l as [|y l IH]; simpl; intros Hin.
  - by apply elem_of_nil in Hin.
  - case_decide; [done|]. simpl. f_equal. apply IH.
    apply elem_of_cons in Hin as [->|Hin]; done.
Qed.

(** C8: adding a node that is in the write-side set, or removing one that
    is not, changes nothing, the dirty flag included; adding a node that is
    not in the set puts it there, removing one that is in it takes an
    element away, and both then set the dirty flag. *)
Theorem automaticPullNode_idempotent (n : nat) c :
  (n ∈ m_automaticPullNodes c -> addAutomaticPullNode n c = c) /\
  (n ∉ m_automaticPullNodes c -> removeAutomaticPullNode n c = c) /\
  (n ∉ m_automaticPullNodes c ->
   m_automaticPullNodes (addAutomaticPullNode n c) <> m_automaticPullNodes c /\
   (forall x, x ∈ m_automaticPullNodes (addAutomaticPullNode n c)
              <-> x = n \/ x ∈ m_automaticPullNodes c) /\
   m_automaticPullNodesNeedUpdating (addAutomaticPullNode n c) = true) /\
  (n ∈ m_automaticPullNodes c ->
   m_automaticPullNodes (removeAutomaticPullNode n c) <> m_automaticPullNodes c /\
   S (length (m_automaticPullNodes (removeAutomaticPullNode n c)))
   = length (m_automaticPullNodes c) /\
   m_automaticPullNodesNeedUpdating (removeAutomaticPullNode n c) = true).
Proof.
  unfold addAutomaticPullNode, removeAutomaticPullNode.
  split; [|split; [|split]]; intros Hn; repeat case_decide; try done; simpl.
  - split; [|split; [|done]].
    + intros Heq. apply Hn. rewrite <- Heq. apply elem_of_set_insert. by left.
    + intros x. apply elem_of_set_insert.
  - split; [|split; [|done]].
    + intros Heq. apply length_erase_first in Hn. rewrite Heq in Hn. lia.
    + by apply length_erase_first.
Qed.

(** [update] never touches the automatic-pull registry. *)
Lemma for_each_registry (l : list PendingNodeConnection.t) w w' :
  for_each applyPendingNodeConnection l w = Some w' ->
  m_renderingAutomaticPullNodes (ctx w') = m_renderingAutomaticPullNodes (ctx w) /\
  m_automaticPullNodesNeedUpdating (ctx w') = m_automaticPullNodesNeedUpdating (ctx w).
Proof.
  revert w. induction l as [|i l IH]; simpl; intros w H.
  - by injection H as <-.
  - destruct (applyPendingNodeConnection i w) as [w1|] eqn:Hi; [|done]. simpl in H.
    apply IH in H as [-> ->].
    unfold applyPendingNodeConnection in Hi.
    destruct i as [[f|] [t|] []]; simpl in Hi; try done; by injection Hi as <-.
Qed.

Lemma foldl_applyPendingConnection_ctx (l : list PendingConnection.t) w :
  ctx (foldl (λ w' i, applyPendingConnection i w') w l) = ctx w.
Proof.
  revert w. induction l as [|i l IH]; simpl; intros w; [done|].
  rewrite IH. unfold applyPendingConnection. by destruct (PendingConnection.connect i).
Qed.

Lemma foldl_derefNode_registry (l : list nat) c :
  m_renderingAutomaticPullNodes (foldl (λ c' n, derefNode n c') c l)
  = m_renderingAutomaticPullNodes c /\
  m_automaticPullNodesNeedUpdating (foldl (λ c' n, derefNode n c') c l)
  = m_automaticPullNodesNeedUpdating c.
Proof.
  revert c. induction l as [|n l IH]; simpl; intros c; [done|].
  destruct (IH (derefNode n c)) as [-> ->]. done.
Qed.

Lemma updateAutomaticPullNodes_registry c :
  m_renderingAutomaticPullNodes (updateAutomaticPullNodes c)
  = (if m_automaticPullNodesNeedUpdating c
     then m_automaticPullNodes c else m_renderingAutomaticPullNodes c) /\
  m_automaticPullNodesNeedUpdating (updateAutomaticPullNodes c) = false /\
  m_automaticPullNodes (updateAutomaticPullNodes c) = m_automaticPullNodes c.
Proof.
  unfold updateAutomaticPullNodes.
  destruct (m_automaticPullNodesNeedUpdating c) eqn:E; simpl; by rewrite ?E.
Qed.

Lemma scheduleNodeDeletion_registry (r_context : bool) c :
  m_renderingAutomaticPullNodes (scheduleNodeDeletion r_context c)
  = m_renderingAutomaticPullNodes c /\
  m_automaticPullNodesNeedUpdating (scheduleNodeDeletion r_context c)
  = m_automaticPullNodesNeedUpdating c /\
  m_automaticPullNodes (scheduleNodeDeletion r_context c) = m_automaticPullNodes c.
Proof.
  unfold scheduleNodeDeletion.
  destruct (negb _); [done|]. by destruct (_ && _).
Qed.

(** C4, as the code has it: the snapshot and the dirty flag are left alone
    by [update]; it is the render-path hooks that, finding the flag set,
    copy the write-side set into the snapshot and clear the flag, and that
    leave both alone when the flag is clear. *)
Theorem snapshot_rebuilt_by_render_hooks w (r_context : bool) :
  (forall w', update w = Some w' ->
     m_renderingAutomaticPullNodes (ctx w') = m_renderingAutomaticPullNodes (ctx w) /\
     m_automaticPullNodesNeedUpdating (ctx w') = m_automaticPullNodesNeedUpdating (ctx w)) /\
  (forall w', w' = handlePreRenderTasks w \/ w' = handlePostRenderTasks r_context w ->
     m_renderingAutomaticPullNodes (ctx w')
     = (if m_automaticPullNodesNeedUpdating (ctx w)
        then m_automaticPullNodes (ctx w)
        else m_renderingAutomaticPullNodes (ctx w)) /\
     m_automaticPullNodesNeedUpdating (ctx w') = false /\
     m_automaticPullNodes (ctx w') = m_automaticPullNodes (ctx w)).
Proof.
  split.
  - intros w' H. unfold update in H.
    destruct (for_each _ _ _) as [w1|] eqn:Hw1; [|done]. simpl in H.
    injection H as <-. simpl.
    apply for_each_registry in Hw1 as [H1 H2]. simpl in H1, H2.
    rewrite foldl_applyPendingConnection_ctx in H1, H2.
    unfold derefFinishedSourceNodes. simpl.
    destruct (foldl_derefNode_registry (m_finishedNodes (ctx w1))
                (set_pendingNodeConnections [] (ctx w1))) as [-> ->].
    simpl. done.
  - intros w' [-> | ->]; simpl.
    + apply updateAutomaticPullNodes_registry.
    + destruct (scheduleNodeDeletion_registry r_context (ctx w)) as (H1 & H2 & H3).
      rewrite <- H1, <- H2, <- H3. apply updateAutomaticPullNodes_registry.
Qed.

(** ** Machine arithmetic *)

Lemma wrap_int_range (z : Z) : INT_MIN <= wrap_int z <= INT_MAX.
Proof.
  unfold wrap_int, INT_MIN, INT_MAX.
  change (2 ^ 32) with 4294967296. change (2 ^ 31) with 2147483648.
  pose proof (Z.mod_pos_bound (z + 2147483648) 4294967296). lia.
Qed.

Lemma wrap_int_id (z : Z) : INT_MIN <= z <= INT_MAX -> wrap_int z = z.
Proof.
  unfold wrap_int, INT_MIN, INT_MAX.
  change (2 ^ 32) with 4294967296. change (2 ^ 31) with 2147483648.
  intros H. rewrite Z.mod_small; lia.
Qed.

Lemma atomicIncrement_le (x : Z) :
  INT_MIN <= x <= INT_MAX -> atomicIncrement x <= x + 1.
Proof.
  intros H. unfold atomicIncrement.
  destruct (decide (x = INT_MAX)) as [->|Hne].
  - vm_compute. discriminate.
  - rewrite wrap_int_id; unfold INT_MIN, INT_MAX in *; lia.
Qed.

Lemma atomicDecrement_eq (x : Z) :
  INT_MIN < x <= INT_MAX -> atomicDecrement x = x - 1.
Proof.
  intros H. unfold atomicDecrement. apply wrap_int_id.
  unfold INT_MIN, INT_MAX in *. lia.
Qed.

(** ** Reading the state after a branch of [update] *)

Lemma record_eta_ctx c :
  pendingConnections c = [] -> pendingNodeConnections c = [] ->
  set_pendingNodeConnections [] (set_pendingConnections [] c) = c.
Proof. destruct c; simpl; by intros -> ->. Qed.

Lemma derefFinishedSourceNodes_none c :
  m_finishedNodes c = [] -> derefFinishedSourceNodes c = c.
Proof. unfold derefFinishedSourceNodes. destruct c; simpl; by intros ->. Qed.

Lemma connectionRefCount_junctions (n : nat) j d a :
  connectionRefCount n (set_junctions j d a) = connectionRefCount n a.
Proof. reflexivity. Qed.

Lemma connectionRefCount_connect (n : nat) i o a :
  connectionRefCount n (AudioNodeInput_connect i o a) = connectionRefCount n a.
Proof.
  unfold AudioNodeInput_connect. destruct i, o; try done. by case_decide.
Qed.

Lemma connectionRefCount_disconnect (n : nat) i o a :
  connectionRefCount n (AudioNodeInput_disconnect i o a) = connectionRefCount n a.
Proof.
  unfold AudioNodeInput_disconnect. destruct i, o; try done. by case_decide.
Qed.

Lemma connectionRefCount_increment (n m : nat) a :
  connectionRefCount n (incrementConnectionRefCount m a)
  = if decide (n = m) then atomicIncrement (connectionRefCount m a)
    else connectionRefCount n a.
Proof.
  unfold connectionRefCount, incrementConnectionRefCount. simpl.
  case_decide; subst; [by rewrite lookup_insert_eq|by rewrite lookup_insert_ne].
Qed.

Lemma connectionRefCount_decrement (n m : nat) a :
  connectionRefCount n (decrementConnectionRefCount m a)
  = if decide (n = m) then atomicDecrement (connectionRefCount m a)
    else connectionRefCount n a.
Proof.
  unfold connectionRefCount, decrementConnectionRefCount. simpl.
  case_decide; subst; [by rewrite lookup_insert_eq|by rewrite lookup_insert_ne].
Qed.

(** The counters after the connect branch: [from] first, then [to]. *)
Lemma connectionRefCount_connectNodes (n f t : nat) w :
  connectionRefCount n (nodes (connectNodes f t w))
  = if decide (n = t)
    then atomicIncrement (if decide (t = f)
                          then atomicIncrement (connectionRefCount f (nodes w))
                          else connectionRefCount t (nodes w))
    else if decide (n = f) then atomicIncrement (connectionRefCount f (nodes w))
    else connectionRefCount n (nodes w).
Proof.
  unfold connectNodes, enableOutputs. cbn [nodes ctx on_nodes on_ctx].
  change (connectionRefCount n (set_internals ?g ?a)) with (connectionRefCount n a).
  change (connectionRefCount n (set_internals ?g ?a)) with (connectionRefCount n a).
  rewrite !connectionRefCount_increment.
  repeat case_decide; subst; try done;
    rewrite ?connectionRefCount_increment, ?connectionRefCount_connect;
    repeat case_decide; try done.
  all: by rewrite ?connectionRefCount_connect.
Qed.

(** The counters after the disconnect branch. *)
Lemma connectionRefCount_disconnectNodes (n f t : nat) w :
  connectionRefCount n (nodes (disconnectNodes f t w))
  = if decide (n = t)
    then atomicDecrement (if decide (t = f)
                          then atomicDecrement (connectionRefCount f (nodes w))
                          else connectionRefCount t (nodes w))
    else if decide (n = f) then atomicDecrement (connectionRefCount f (nodes w))
    else connectionRefCount n (nodes w).
Proof.
  unfold disconnectNodes, disableOutputs. cbn [nodes ctx on_nodes on_ctx].
  change (connectionRefCount n (set_internals ?g ?a)) with (connectionRefCount n a).
  change (connectionRefCount n (set_internals ?g ?a)) with (connectionRefCount n a).
  rewrite connectionRefCount_disconnect, !connectionRefCount_decrement.
  repeat case_decide; subst; try done.
Qed.

Lemma connectNodes_referenced (f t : nat) w :
  m_referencedNodes (ctx (connectNodes f t w)) = m_referencedNodes (ctx w) ++ [f; t].
Proof. simpl. by rewrite <- app_assoc. Qed.

Lemma disconnectNodes_referenced (f t : nat) w :
  m_referencedNodes (ctx (disconnectNodes f t w))
  = erase_first t (erase_first f (m_referencedNodes (ctx w))).
Proof. reflexivity. Qed.

Lemma AudioNodeInput_connect_present (i o : nat * nat) a :
  (o, i) ∈ junctions a -> AudioNodeInput_connect (Some i) (Some o) a = a.
Proof. intros H. unfold AudioNodeInput_connect. by rewrite decide_True. Qed.

Lemma AudioNodeInput_connect_adds (i o : nat * nat) a :
  (o, i) ∈ junctions (AudioNodeInput_connect (Some i) (Some o) a).
Proof.
  unfold AudioNodeInput_connect. case_decide; [done|].
  cbn [junctions set_junctions]. apply elem_of_union_l, elem_of_singleton. done.
Qed.

Lemma connectNodes_junctions (f t : nat) w :
  junctions (nodes (connectNodes f t w))
  = junctions (AudioNodeInput_connect (Some (t, 0%nat)) (Some (f, 0%nat)) (nodes w)) /\
  dirtyJunctions (nodes (connectNodes f t w))
  = dirtyJunctions (AudioNodeInput_connect (Some (t, 0%nat)) (Some (f, 0%nat)) (nodes w)).
Proof. split; reflexivity. Qed.

(** Linking an edge a second time changes no junction. *)
Lemma connectNodes_junctions_again (f t : nat) w :
  junctions (nodes (connectNodes f t (connectNodes f t w)))
  = junctions (nodes (connectNodes f t w)) /\
  dirtyJunctions (nodes (connectNodes f t (connectNodes f t w)))
  = dirtyJunctions (nodes (connectNodes f t w)).
Proof.
  destruct (connectNodes_junctions f t (connectNodes f t w)) as [-> ->].
  rewrite AudioNodeInput_connect_present; [done|].
  destruct (connectNodes_junctions f t w) as [-> _].
  apply AudioNodeInput_connect_adds.
Qed.

(** ** Draining the queue *)

Lemma submitAll_pending (rs : list Request) c :
  submitAll rs c
  = set_pendingNodeConnections (pendingNodeConnections c ++ map staged rs) c.
Proof.
  unfold submitAll. revert c. induction rs as [|r rs IH]; intros c; simpl.
  - rewrite app_nil_r. by destruct c.
  - rewrite IH. destruct r; simpl; by rewrite <- app_assoc.
Qed.

Lemma for_each_staged (rs : list Request) w :
  for_each applyPendingNodeConnection (map staged rs) w = Some (applyAll rs w).
Proof.
  unfold applyAll. revert w. induction rs as [|r rs IH]; intros w; simpl; [done|].
  destruct r; simpl; apply IH.
Qed.

Lemma applyAll_pending (rs : list Request) w :
  pendingConnections (ctx (applyAll rs w)) = pendingConnections (ctx w) /\
  pendingNodeConnections (ctx (applyAll rs w)) = pendingNodeConnections (ctx w) /\
  m_finishedNodes (ctx (applyAll rs w)) = m_finishedNodes (ctx w).
Proof.
  unfold applyAll. revert w. induction rs as [|r rs IH]; intros w; simpl; [done|].
  destruct (IH (applyRequest r w)) as (-> & -> & ->). by destruct r.
Qed.

Lemma applyAll_on_pendingConnections (rs : list Request) l w :
  applyAll rs (on_ctx (set_pendingConnections l) w)
  = on_ctx (set_pendingConnections l) (applyAll rs w).
Proof.
  unfold applyAll. revert w. induction rs as [|r rs IH]; intros w; simpl; [done|].
  rewrite <- IH. f_equal. by destruct r.
Qed.

Lemma applyAll_on_pendingNodeConnections (rs : list Request) l w :
  applyAll rs (on_ctx (set_pendingNodeConnections l) w)
  = on_ctx (set_pendingNodeConnections l) (applyAll rs w).
Proof.
  unfold applyAll. revert w. induction rs as [|r rs IH]; intros w; simpl; [done|].
  rewrite <- IH. f_equal. by destruct r.
Qed.

Lemma foldl_applyPendingConnection_on_ctx (g : AudioContext -> AudioContext)
    (l : list PendingConnection.t) w :
  foldl (λ w' i, applyPendingConnection i w') (on_ctx g w) l
  = on_ctx g (foldl (λ w' i, applyPendingConnection i w') w l).
Proof.
  revert w. induction l as [|i l IH]; intros w; simpl; [done|].
  rewrite <- IH. f_equal. unfold applyPendingConnection.
  by destruct (PendingConnection.connect i).
Qed.

Lemma drainConnections_pending w :
  pendingConnections (ctx (drainConnections w)) = [] /\
  pendingNodeConnections (ctx (drainConnections w)) = pendingNodeConnections (ctx w) /\
  m_finishedNodes (ctx (drainConnections w)) = m_finishedNodes (ctx w).
Proof.
  unfold drainConnections. cbn [ctx on_ctx].
  rewrite foldl_applyPendingConnection_ctx. done.
Qed.

Lemma drainConnections_none w :
  pendingConnections (ctx w) = [] -> drainConnections w = w.
Proof.
  intros H. unfold drainConnections. rewrite H. simpl.
  destruct w as [c a]. unfold on_ctx. simpl in *. f_equal.
  destruct c; simpl in *; by subst.
Qed.

(** One cycle applies the port requests, then what was staged, in order,
    and then harvests the finished nodes. *)
Lemma update_submitAll (rs : list Request) w :
  pendingNodeConnections (ctx w) = [] ->
  update (on_ctx (submitAll rs) w)
  = Some (on_ctx derefFinishedSourceNodes (applyAll rs (drainConnections w))).
Proof.
  intros Hpn.
  assert (Hs : on_ctx (submitAll rs) w = on_ctx (set_pendingNodeConnections (map staged rs)) w).
  { unfold on_ctx. by rewrite submitAll_pending, Hpn. }
  rewrite Hs. unfold update, drainConnections. cbn [ctx nodes on_ctx].
  change (pendingConnections (set_pendingNodeConnections ?l ?c)) with (pendingConnections c).
  fold (on_ctx (set_pendingNodeConnections (map staged rs)) w).
  rewrite foldl_applyPendingConnection_on_ctx.
  set (wf := foldl _ w _).
  assert (Hwf : pendingNodeConnections (ctx wf) = []).
  { unfold wf. by rewrite foldl_applyPendingConnection_ctx. }
  change (pendingNodeConnections (set_pendingConnections []
            (ctx (on_ctx (set_pendingNodeConnections ?l) _)))) with l.
  rewrite for_each_staged. cbn [mbind option_bind].
  apply (f_equal Some), (f_equal (on_ctx derefFinishedSourceNodes)).
  rewrite !applyAll_on_pendingConnections, applyAll_on_pendingNodeConnections.
  destruct (applyAll_pending rs wf) as (_ & H2 & _). rewrite Hwf in H2.
  destruct (applyAll rs wf) as [c a]. unfold on_ctx. cbn [ctx nodes] in *.
  apply (f_equal (λ c', {| ctx := c'; nodes := a |})).
  destruct c; simpl in *; by subst.
Qed.

(** For requests on nodes staged one after the other, one [update] returns
    with both queues empty, and the state it produces is the one obtained
    by applying the requests one by one, first to last, to the graph as
    the port requests left it, followed by the harvest of the finished
    nodes that closes every cycle. *)
Lemma update_applies_in_submission_order (rs : list Request) w :
  pendingNodeConnections (ctx w) = [] ->
  exists w',
    update (on_ctx (submitAll rs) w) = Some w' /\
    pendingConnections (ctx w') = [] /\
    pendingNodeConnections (ctx w') = [] /\
    m_finishedNodes (ctx w') = [] /\
    w' = on_ctx derefFinishedSourceNodes (applyAll rs (drainConnections w)).
Proof.
  intros Hpn. eexists. split; [by apply update_submitAll|].
  destruct (applyAll_pending rs (drainConnections w)) as (H1 & H2 & _).
  destruct (drainConnections_pending w) as (H3 & H4 & _).
  rewrite H3 in H1. rewrite H4, Hpn in H2.
  remember (applyAll rs (drainConnections w)) as w1. clear Heqw1.
  assert (Hq : forall l c, pendingConnections (foldl (λ c' n, derefNode n c') c l) = pendingConnections c
               /\ pendingNodeConnections (foldl (λ c' n, derefNode n c') c l) = pendingNodeConnections c).
  { induction l as [|n l IH]; intros c; simpl; [done|]. by destruct (IH (derefNode n c)) as [-> ->]. }
  unfold derefFinishedSourceNodes. simpl.
  destruct (Hq (m_finishedNodes (ctx w1)) (ctx w1)) as [-> ->]. done.
Qed.

Lemma on_ctx_derefFinishedSourceNodes_none w :
  m_finishedNodes (ctx w) = [] -> on_ctx derefFinishedSourceNodes w = w.
Proof.
  intros H. destruct w as [c a]. unfold on_ctx. cbn [ctx nodes] in *.
  by rewrite derefFinishedSourceNodes_none.
Qed.

(** One cycle over a quiescent context is the plain application of what
    was staged. *)
Lemma update_submitAll_quiescent (rs : list Request) w :
  quiescent (ctx w) -> update (on_ctx (submitAll rs) w) = Some (applyAll rs w).
Proof.
  intros (Hpc & Hpn & Hfin). rewrite update_submitAll by done.
  rewrite drainConnections_none by done.
  rewrite on_ctx_derefFinishedSourceNodes_none; [done|].
  destruct (applyAll_pending rs w) as (_ & _ & ->). done.
Qed.

Lemma submitEach_pending (ms : list Submission) c :
  submitEach ms c
  = set_pendingConnections (pendingConnections c ++ map stagedPort (portRequests ms))
      (set_pendingNodeConnections (pendingNodeConnections c ++ map staged (nodeRequests ms)) c).
Proof.
  unfold submitEach. revert c. induction ms as [|m ms IH]; intros c; simpl.
  - rewrite !app_nil_r. by destruct c.
  - rewrite IH. destruct m as [[f t|f t]|[i o|o]]; simpl; by rewrite <- app_assoc.
Qed.

Lemma applyPorts_ctx (ps : list PortRequest) w : ctx (applyPorts ps w) = ctx w.
Proof.
  unfold applyPorts. revert w. induction ps as [|p ps IH]; intros w; simpl; [done|].
  rewrite IH. unfold applyPendingConnection.
  by destruct (PendingConnection.connect (stagedPort p)).
Qed.

Lemma foldl_staged_ports (ps : list PortRequest) w :
  foldl (λ w' i, applyPendingConnection i w') w (map stagedPort ps) = applyPorts ps w.
Proof.
  unfold applyPorts. revert w. induction ps as [|p ps IH]; intros w; simpl; [done|].
  apply IH.
Qed.

Lemma drainConnections_staged (ps : list PortRequest) w :
  pendingConnections (ctx w) = [] ->
  drainConnections (on_ctx (set_pendingConnections (map stagedPort ps)) w) = applyPorts ps w.
Proof.
  intros Hpc. unfold drainConnections. cbn [ctx on_ctx].
  change (pendingConnections (set_pendingConnections ?l ?c)) with l.
  rewrite foldl_applyPendingConnection_on_ctx, foldl_staged_ports.
  pose proof (applyPorts_ctx ps w) as Hp.
  destruct (applyPorts ps w) as [c a]. unfold on_ctx. cbn [ctx nodes] in *.
  apply (f_equal (λ c', {| ctx := c'; nodes := a |})).
  rewrite Hp. destruct (ctx w); simpl in *; by subst.
Qed.

(** C5, as the code has it: whatever the interleaving in which one thread
    stages requests on nodes (with both handles) and requests on ports,
    one [update] returns with both queues empty, and the state it produces
    is that of applying all the port requests in their order, then all the
    node requests in their order, and then the harvest of the finished
    nodes that closes every cycle: the order of submission is kept within
    each queue, not between the two. *)
Theorem update_applies_each_queue_in_order (ms : list Submission) w :
  pendingConnections (ctx w) = [] -> pendingNodeConnections (ctx w) = [] ->
  exists w',
    update (on_ctx (submitEach ms) w) = Some w' /\
    pendingConnections (ctx w') = [] /\
    pendingNodeConnections (ctx w') = [] /\
    w' = on_ctx derefFinishedSourceNodes
           (applyAll (nodeRequests ms) (applyPorts (portRequests ms) w)).
Proof.
  intros Hpc Hpn.
  assert (Hs : on_ctx (submitEach ms) w
               = on_ctx (submitAll (nodeRequests ms))
                   (on_ctx (set_pendingConnections (map stagedPort (portRequests ms))) w)).
  { unfold on_ctx. cbn [ctx nodes]. rewrite submitEach_pending, submitAll_pending.
    change (pendingNodeConnections (set_pendingConnections ?l ?c))
      with (pendingNodeConnections c).
    rewrite Hpc, Hpn. reflexivity. }
  rewrite Hs. rewrite update_submitAll by exact Hpn.
  rewrite drainConnections_staged by exact Hpc.
  eexists. split; [reflexivity|].
  destruct (applyAll_pending (nodeRequests ms) (applyPorts (portRequests ms) w))
    as (H1 & H2 & _).
  rewrite applyPorts_ctx, Hpc in H1. rewrite applyPorts_ctx, Hpn in H2.
  remember (applyAll (nodeRequests ms) (applyPorts (portRequests ms) w)) as w1. clear Heqw1.
  assert (Hq : forall l c, pendingConnections (foldl (λ c' n, derefNode n c') c l) = pendingConnections c
               /\ pendingNodeConnections (foldl (λ c' n, derefNode n c') c l) = pendingNodeConnections c).
  { induction l as [|n l IH]; intros c; simpl; [done|]. by destruct (IH (derefNode n c)) as [-> ->]. }
  unfold derefFinishedSourceNodes. cbn [ctx on_ctx].
  destruct (Hq (m_finishedNodes (ctx w1)) (ctx w1)) as [Hq1 Hq2].
  split; [|split; [|reflexivity]].
  - change (pendingConnections (set_m_finishedNodes ?f ?c)) with (pendingConnections c).
    by rewrite Hq1.
  - change (pendingNodeConnections (set_m_finishedNodes ?f ?c)) with (pendingNodeConnections c).
    by rewrite Hq2.
Qed.

(** ** Connecting and disconnecting *)

(** C1, as the code has it: [update] runs the connect branch once for each
    staged connect. After connect(from, to) twice the junctions are those
    of connecting once, but [from] and [to] are appended to the reference
    list once more and their counters are incremented once more. *)
Theorem connect_twice_counts_twice (from to : nat) w :
  quiescent (ctx w) ->
  exists w1 w2,
    update (on_ctx (connect (Some from) (Some to)) w) = Some w1 /\
    update (on_ctx (connect (Some from) (Some to))
              (on_ctx (connect (Some from) (Some to)) w)) = Some w2 /\
    w2 = connectNodes from to w1 /\
    junctions (nodes w2) = junctions (nodes w1) /\
    dirtyJunctions (nodes w2) = dirtyJunctions (nodes w1) /\
    m_referencedNodes (ctx w2) = m_referencedNodes (ctx w1) ++ [from; to] /\
    connectionRefCount from (nodes w2)
    = (if decide (from = to)
       then atomicIncrement (atomicIncrement (connectionRefCount from (nodes w1)))
       else atomicIncrement (connectionRefCount from (nodes w1))) /\
    connectionRefCount to (nodes w2)
    = (if decide (from = to)
       then atomicIncrement (atomicIncrement (connectionRefCount to (nodes w1)))
       else atomicIncrement (connectionRefCount to (nodes w1))) /\
    (forall n : nat, n <> from -> n <> to ->
       connectionRefCount n (nodes w2) = connectionRefCount n (nodes w1)).
Proof.
  intros Hq.
  exists (connectNodes from to w), (connectNodes from to (connectNodes from to w)).
  split; [exact (update_submitAll_quiescent [Connect from to] w Hq)|].
  split; [exact (update_submitAll_quiescent [Connect from to; Connect from to] w Hq)|].
  split; [done|].
  destruct (connectNodes_junctions_again from to w) as [-> ->].
  split; [done|]. split; [done|].
  split; [apply connectNodes_referenced|].
  generalize (connectNodes from to w). intros w1.
  split; [|split]; [| |intros n Hf Ht]; rewrite connectionRefCount_connectNodes;
    repeat case_decide; subst; done.
Qed.

(** C3, as the code has it: disconnect(from, to) is never an error, but
    whether the edge exists or not (so also when it does not) [update]
    decrements the counters of [from] and of [to] and erases the first
    entry of each from the reference list, if there is one. *)
Theorem disconnect_decrements_regardless (from to : nat) w :
  quiescent (ctx w) ->
  exists w',
    update (on_ctx (disconnect (Some from) (Some to)) w) = Some w' /\
    w' = disconnectNodes from to w /\
    m_referencedNodes (ctx w')
    = erase_first to (erase_first from (m_referencedNodes (ctx w))) /\
    connectionRefCount from (nodes w')
    = (if decide (from = to)
       then atomicDecrement (atomicDecrement (connectionRefCount from (nodes w)))
       else atomicDecrement (connectionRefCount from (nodes w))) /\
    connectionRefCount to (nodes w')
    = (if decide (from = to)
       then atomicDecrement (atomicDecrement (connectionRefCount to (nodes w)))
       else atomicDecrement (connectionRefCount to (nodes w))) /\
    (forall n : nat, n <> from -> n <> to ->
       connectionRefCount n (nodes w') = connectionRefCount n (nodes w)).
Proof.
  intros Hq. exists (disconnectNodes from to w).
  split; [exact (update_submitAll_quiescent [Disconnect from to] w Hq)|].
  split; [done|]. split; [apply disconnectNodes_referenced|].
  split; [|split]; [| |intros n Hf Ht]; rewrite connectionRefCount_disconnectNodes;
    repeat case_decide; subst; done.
Qed.

(** C6: from the empty graph, connect(src, gain) and connect(gain, dest)
    followed by one [update] leave [src] and [gain] in the reference list,
    [src] with a connection reference count of 1 and [gain] of 2. *)
Theorem scenario_A (src gain dest : nat) (i : NodeInternals) :
  src <> gain -> gain <> dest -> src <> dest ->
  exists w',
    update (on_ctx (connect (Some gain) (Some dest))
              (on_ctx (connect (Some src) (Some gain)) (emptyWorld i))) = Some w' /\
    src ∈ m_referencedNodes (ctx w') /\
    gain ∈ m_referencedNodes (ctx w') /\
    connectionRefCount src (nodes w') = 1 /\
    connectionRefCount gain (nodes w') = 2.
Proof.
  intros H1 H2 H3.
  exists (connectNodes gain dest (connectNodes src gain (emptyWorld i))).
  split.
  { apply (update_submitAll_quiescent [Connect src gain; Connect gain dest] (emptyWorld i)).
    by repeat split. }
  rewrite !connectNodes_referenced. cbn [emptyWorld ctx AudioContext_hardware m_referencedNodes].
  split; [apply list_elem_of_In; simpl; tauto|].
  split; [apply list_elem_of_In; simpl; tauto|].
  rewrite !connectionRefCount_connectNodes.
  repeat case_decide; subst; try done.
Qed.

(** ** The invariant of the reference list *)

Lemma referencedWhileConnected_alt w :
  referencedWhileConnected w <->
  forall n : nat, 0 < connectionRefCount n (nodes w) -> n ∈ m_referencedNodes (ctx w).
Proof.
  unfold referencedWhileConnected, connectionRefCount. split.
  - intros H n Hn. destruct (m_connectionRefCount (nodes w) !! n) as [k|] eqn:E.
    + by apply (H n k).
    + simpl in Hn. lia.
  - intros H n k E Hk. apply H. by rewrite E.
Qed.

Lemma countedInReferences_alt w :
  countedInReferences w <->
  forall n : nat,
    INT_MIN <= connectionRefCount n (nodes w) <= INT_MAX /\
    connectionRefCount n (nodes w)
    <= Z.of_nat (count_occ Nat.eq_dec (m_referencedNodes (ctx w)) n).
Proof.
  unfold countedInReferences, connectionRefCount. split.
  - intros H n. destruct (m_connectionRefCount (nodes w) !! n) as [k|] eqn:E.
    + by apply (H n k).
    + simpl. unfold INT_MIN, INT_MAX. lia.
  - intros H n k E. specialize (H n). by rewrite E in H.
Qed.

Lemma count_occ_erase_first (m n : nat) (l : list nat) :
  count_occ Nat.eq_dec (erase_first m l) n
  = if decide (n = m) then Nat.pred (count_occ Nat.eq_dec l n)
    else count_occ Nat.eq_dec l n.
Proof.
  induction l as [|x l IH]; simpl.
  - by case_decide.
  - destruct (decide (m = x)) as [->|Hmx].
    + destruct (Nat.eq_dec x n) as [->|Hxn].
      * by rewrite decide_True.
      * by rewrite decide_False.
    + simpl. rewrite IH. destruct (Nat.eq_dec x n) as [->|Hxn]; [|done].
      rewrite !decide_False by done. done.
Qed.

Lemma count_occ_positive (n : nat) (l : list nat) :
  (0 < count_occ Nat.eq_dec l n)%nat -> n ∈ l.
Proof. intros H. apply list_elem_of_In. by apply (count_occ_In Nat.eq_dec). Qed.

(** C2, as the code has it: the connect branch of [update] keeps every
    node with a positive counter in the reference list; the disconnect
    branches keep it there when every counter is at most the number of
    entries of its node in the list, a bound that the connect branch and,
    short of a decrement wrapping around at [INT_MIN], the disconnect
    branches maintain, and that implies the invariant. A decrement wraps
    exactly when it is applied to [INT_MIN]: the branch with both handles
    decrements [from] and then [to], so twice the same counter when the
    two are one node. *)
Theorem update_branches_keep_connected_nodes_referenced (from to : nat) w :
  (referencedWhileConnected w -> referencedWhileConnected (connectNodes from to w)) /\
  (countedInReferences w -> referencedWhileConnected w) /\
  (countedInReferences w -> countedInReferences (connectNodes from to w)) /\
  (countedInReferences w ->
   INT_MIN < connectionRefCount from (nodes w) ->
   INT_MIN < connectionRefCount to (nodes w) ->
   (from = to -> INT_MIN + 1 < connectionRefCount from (nodes w)) ->
   countedInReferences (disconnectNodes from to w)) /\
  (countedInReferences w ->
   INT_MIN < connectionRefCount to (nodes w) ->
   countedInReferences (disconnectAllOf to w)).
Proof.
  rewrite !referencedWhileConnected_alt, !countedInReferences_alt.
  split; [|split; [|split; [|split]]].
  - intros H n. rewrite connectionRefCount_connectNodes, connectNodes_referenced.
    intros Hn. apply elem_of_app.
    destruct (decide (n = to)) as [->|Hnt]; [right; apply list_elem_of_In; simpl; tauto|].
    destruct (decide (n = from)) as [->|Hnf]; [right; apply list_elem_of_In; simpl; tauto|].
    left. by apply H.
  - intros H n Hn. destruct (H n) as [_ Hle].
    apply count_occ_positive. lia.
  - intros H n. rewrite connectionRefCount_connectNodes, connectNodes_referenced.
    rewrite count_occ_app. simpl.
    pose proof (H n) as [Hr Hle]. pose proof (H from) as [Hrf Hlef].
    pose proof (H to) as [Hrt Hlet].
    pose proof (atomicIncrement_le _ Hrf) as Hif.
    pose proof (atomicIncrement_le _ Hrt) as Hit.
    pose proof (wrap_int_range (connectionRefCount from (nodes w) + 1)) as Hwf.
    fold (atomicIncrement (connectionRefCount from (nodes w))) in Hwf.
    pose proof (atomicIncrement_le _ Hwf) as Hiff.
    pose proof (wrap_int_range (atomicIncrement (connectionRefCount from (nodes w)) + 1)) as Hwff.
    pose proof (wrap_int_range (connectionRefCount to (nodes w) + 1)) as Hwt.
    fold atomicIncrement in Hwff, Hwt.
    repeat case_decide; subst;
      repeat (destruct (Nat.eq_dec _ _); try congruence); split; try done; lia.
  - intros H Hf Ht Hft n.
    rewrite connectionRefCount_disconnectNodes, disconnectNodes_referenced.
    rewrite !count_occ_erase_first.
    pose proof (H n) as [Hr Hle]. pose proof (H from) as [Hrf Hlef].
    pose proof (H to) as [Hrt Hlet].
    assert (Hdf : atomicDecrement (connectionRefCount from (nodes w))
                  = connectionRefCount from (nodes w) - 1)
      by (apply atomicDecrement_eq; lia).
    assert (Hdt : atomicDecrement (connectionRefCount to (nodes w))
                  = connectionRefCount to (nodes w) - 1)
      by (apply atomicDecrement_eq; lia).
    assert (Hdff : from = to ->
                   atomicDecrement (connectionRefCount from (nodes w) - 1)
                   = connectionRefCount from (nodes w) - 2).
    { intros Heq. specialize (Hft Heq). rewrite atomicDecrement_eq; lia. }
    destruct (decide (to = from)) as [Heq|Hne].
    + subst to. specialize (Hdff eq_refl).
      repeat case_decide; subst; rewrite ?Hdf, ?Hdff; try done; lia.
    + clear Hdff Hft.
      repeat case_decide; subst; rewrite ?Hdf, ?Hdt; try done; lia.
  - intros H Ht n. unfold disconnectAllOf, disableOutputs, AudioNode_disconnect.
    cbn [nodes ctx on_nodes on_ctx].
    change (connectionRefCount n (set_internals ?g ?a)) with (connectionRefCount n a).
    unfold AudioNodeOutput_disconnectAll. rewrite connectionRefCount_junctions.
    rewrite connectionRefCount_decrement.
    pose proof (H n) as [Hr Hle]. pose proof (H to) as [Hrt Hlet].
    case_decide; subst; [|done].
    rewrite atomicDecrement_eq; lia.
Qed.

(** ** Note names *)

(** C10, as the code has it: the name produced for a note number is read
    back one octave lower, [n - 12], and for the notes of the lowest
    octave, whose name carries the octave [-1], as 11. *)
Theorem noteRoundTrip_drops_an_octave (note : Z) :
  0 <= note <= 127 ->
  noteRoundTrip note
  = SamplerSound.Returns (if bool_decide (note < 12) then 11 else note - 12).
Proof.
  intros H.
  assert (Hall : forallb (λ k : nat,
             match noteRoundTrip (Z.of_nat k) with
             | SamplerSound.Returns v =>
                 v =? (if bool_decide (Z.of_nat k < 12) then 11 else Z.of_nat k - 12)
             | _ => false
             end) (seq 0 128) = true) by (vm_compute; reflexivity).
  rewrite forallb_forall in Hall.
  specialize (Hall (Z.to_nat note)).
  rewrite Z2Nat.id in Hall by lia.
  destruct (noteRoundTrip note) as [v| |].
  - f_equal. apply Z.eqb_eq, Hall, in_seq. lia.
  - discriminate Hall. apply in_seq. lia.
  - discriminate Hall. apply in_seq. lia.
Qed.

End Properties.

(** * Further properties of the code *)

(** ** Note names *)

Lemma string_snoc_inv (s : string) :
  s = EmptyString \/ exists p c, s = (p ++ String c EmptyString)%string.
Proof.
  induction s as [|a s IH]; [by left|right].
  destruct IH as [->|(p & c & ->)].
  - by exists EmptyString, a.
  - by exists (String a p), c.
Qed.

Lemma length_snoc (p : string) (c : ascii) :
  String.length (p ++ String c EmptyString) = S (String.length p).
Proof. induction p as [|a p IH]; simpl; [done|by rewrite IH]. Qed.

Lemma substring_snoc_last (p : string) (c : ascii) :
  substring (String.length p) 1 (p ++ String c EmptyString) = String c EmptyString.
Proof. induction p as [|a p IH]; simpl; [done|apply IH]. Qed.

Lemma substring_snoc_init (p : string) (c : ascii) :
  substring 0 (String.length p) (p ++ String c EmptyString) = p.
Proof. induction p as [|a p IH]; simpl; [done|by rewrite IH]. Qed.

Lemma transform_snoc (f : ascii -> ascii) (p : string) (c : ascii) :
  SamplerSound.transform f (p ++ String c EmptyString)
  = (SamplerSound.transform f p ++ String (f c) EmptyString)%string.
Proof. induction p as [|a p IH]; simpl; [done|by rewrite IH]. Qed.

Lemma transform_transform (f g : ascii -> ascii) (s : string) :
  SamplerSound.transform f (SamplerSound.transform g s)
  = SamplerSound.transform (λ c, f (g c)) s.
Proof. induction s as [|a s IH]; simpl; [done|by rewrite IH]. Qed.

Lemma transform_ext (f g : ascii -> ascii) (s : string) :
  (forall c, f c = g c) -> SamplerSound.transform f s = SamplerSound.transform g s.
Proof. intros H. induction s as [|a s IH]; simpl; [done|by rewrite IH, H]. Qed.

(** What the function computes from a name split into its note part and
    its last character. *)
Lemma getMIDIFromNoteString_snoc (p : string) (c : ascii) :
  SamplerSound.getMIDIFromNoteString (p ++ String c EmptyString)
  = match SamplerSound.stoi (String c EmptyString) with
    | None => SamplerSound.Throws SamplerSound.invalid_argument
    | Some octave =>
        let value := octave * 12
                     + SamplerSound.notePosition (normalizedNote p)
                         SamplerSound.midiTranslationArray 0 in
        if bool_decide (0 <= value <= 255) then SamplerSound.Returns value
        else SamplerSound.Undefined
    end.
Proof.
  unfold SamplerSound.getMIDIFromNoteString.
  rewrite length_snoc, substring_snoc_last, substring_snoc_init. done.
Qed.

Lemma stoi_digit (c : ascii) :
  SamplerSound.stoi (String c EmptyString)
  = if isDigit c then Some (Z.of_nat (nat_of_ascii c - 48)) else None.
Proof. reflexivity. Qed.

Lemma notePosition_bounds (noteString : string) (names : list string) (i : Z) :
  SamplerSound.notePosition noteString names i = -1 \/
  i <= SamplerSound.notePosition noteString names i < i + Z.of_nat (length names).
Proof.
  revert i. induction names as [|name names IH]; intros i; simpl; [by left|].
  destruct (String.eqb noteString name); [right; lia|].
  destruct (IH (i + 1)) as [->|H]; [by left|right; lia].
Qed.

Lemma notePosition_absent (noteString : string) (names : list string) (i : Z) :
  0 <= i -> (SamplerSound.notePosition noteString names i = -1 <-> ~ In noteString names).
Proof.
  revert i. induction names as [|name names IH]; intros i Hi; simpl; [tauto|].
  destruct (String.eqb_spec noteString name) as [->|Hne].
  - split; [lia|tauto].
  - rewrite IH by lia. split; [intros H [?|?]; [congruence|tauto]|tauto].
Qed.

(** X1: an empty name throws [std::out_of_range] and is the only one to;
    a name throws [std::invalid_argument] exactly when its last character
    is not a decimal digit. *)
Theorem getMIDIFromNoteString_throws (noteName : string) :
  (SamplerSound.getMIDIFromNoteString noteName = SamplerSound.Throws SamplerSound.out_of_range
   <-> noteName = EmptyString) /\
  (SamplerSound.getMIDIFromNoteString noteName = SamplerSound.Throws SamplerSound.invalid_argument
   <-> exists p c, noteName = (p ++ String c EmptyString)%string /\ isDigit c = false).
Proof.
  destruct (string_snoc_inv noteName) as [->|(p & c & ->)].
  - split; [done|]. split; [done|]. intros (p & c & H & _).
    apply (f_equal String.length) in H. rewrite length_snoc in H. done.
  - rewrite getMIDIFromNoteString_snoc, stoi_digit.
    assert (Hne : (p ++ String c EmptyString)%string <> EmptyString).
    { intros H. apply (f_equal String.length) in H. rewrite length_snoc in H. done. }
    destruct (isDigit c) eqn:Hd.
    + cbv zeta. split.
      * split; [intros H; by case_bool_decide|done].
      * split; [intros H; by case_bool_decide|]. intros (p' & c' & H & Hd').
        assert (c' = c) as ->; [|congruence].
        apply (f_equal (λ s, substring (String.length s - 1) 1 s)) in H.
        rewrite !length_snoc in H. simpl in H. rewrite !Nat.sub_0_r in H.
        rewrite !substring_snoc_last in H. congruence.
    + split; [split; done|]. split; [|done]. intros _. by exists p, c.
Qed.

(** X2: a name that [std::stoi] and the table accept, the i-th of the
    twelve note names followed by the digit d, is read as 12 d + i. *)
Theorem getMIDIFromNoteString_table (i d : nat) :
  (i < 12)%nat -> (d < 10)%nat ->
  SamplerSound.getMIDIFromNoteString
    (nth i SamplerSound.midiTranslationArray EmptyString ++ String (digit d) EmptyString)
  = SamplerSound.Returns (12 * Z.of_nat d + Z.of_nat i).
Proof.
  intros Hi Hd.
  assert (Hall : forallb (λ i', forallb (λ d',
      match SamplerSound.getMIDIFromNoteString
              (nth i' SamplerSound.midiTranslationArray EmptyString
               ++ String (digit d') EmptyString) with
      | SamplerSound.Returns v => v =? 12 * Z.of_nat d' + Z.of_nat i'
      | _ => false
      end) (seq 0 10)) (seq 0 12) = true) by (vm_compute; reflexivity).
  rewrite forallb_forall in Hall. specialize (Hall i).
  rewrite forallb_forall in Hall. specialize (Hall ltac:(apply in_seq; lia) d).
  specialize (Hall ltac:(apply in_seq; lia)).
  destruct (SamplerSound.getMIDIFromNoteString _); [|done..].
  f_equal. by apply Z.eqb_eq.
Qed.

(** X3: whatever the name, a returned note number lies between 0 and 119:
    the octave is one digit, so no name reaches the notes 120 to 127. *)
Theorem getMIDIFromNoteString_range (noteName : string) (v : Z) :
  SamplerSound.getMIDIFromNoteString noteName = SamplerSound.Returns v ->
  0 <= v <= 119.
Proof.
  destruct (string_snoc_inv noteName) as [->|(p & c & ->)]; [done|].
  rewrite getMIDIFromNoteString_snoc, stoi_digit.
  destruct (isDigit c) eqn:Hd; [|done]. cbv zeta.
  pose proof (notePosition_bounds (normalizedNote p) SamplerSound.midiTranslationArray 0) as Hb.
  change (Z.of_nat (length SamplerSound.midiTranslationArray)) with 12 in Hb.
  generalize dependent (SamplerSound.notePosition (normalizedNote p)
                          SamplerSound.midiTranslationArray 0).
  intros pos Hb. case_bool_decide as Hv; [|done]. intros [= <-].
  unfold isDigit in Hd. apply andb_prop in Hd as [H1 H2].
  apply Nat.leb_le in H1, H2. lia.
Qed.

Lemma toupper_idempotent (c : ascii) :
  SamplerSound.toupper (SamplerSound.toupper c) = SamplerSound.toupper c.
Proof. destruct c as [[] [] [] [] [] [] [] []]; reflexivity. Qed.

Lemma stoi_toupper (c : ascii) :
  SamplerSound.stoi (String (SamplerSound.toupper c) EmptyString)
  = SamplerSound.stoi (String c EmptyString).
Proof. destruct c as [[] [] [] [] [] [] [] []]; reflexivity. Qed.

Lemma stoi_sharp (c : ascii) :
  SamplerSound.stoi (String (if Ascii.eqb c "S" then "#"%char else c) EmptyString)
  = SamplerSound.stoi (String c EmptyString).
Proof. destruct c as [[] [] [] [] [] [] [] []]; reflexivity. Qed.

Lemma normalizedNote_toupper (p : string) :
  normalizedNote (SamplerSound.transform SamplerSound.toupper p) = normalizedNote p.
Proof.
  unfold normalizedNote. f_equal. rewrite transform_transform.
  apply transform_ext, toupper_idempotent.
Qed.

Lemma normalizedNote_sharp (p : string) :
  normalizedNote (SamplerSound.replace "S" "#" p) = normalizedNote p.
Proof.
  unfold normalizedNote, SamplerSound.replace. rewrite !transform_transform.
  apply transform_ext. intros c.
  destruct c as [[] [] [] [] [] [] [] []]; reflexivity.
Qed.

(** X4: the reading of a name does not depend on the case of its letters,
    nor on whether a sharp is written S or with the hash symbol. *)
Theorem getMIDIFromNoteString_spelling (noteName : string) :
  SamplerSound.getMIDIFromNoteString (SamplerSound.transform SamplerSound.toupper noteName)
  = SamplerSound.getMIDIFromNoteString noteName /\
  SamplerSound.getMIDIFromNoteString (SamplerSound.replace "S" "#" noteName)
  = SamplerSound.getMIDIFromNoteString noteName.
Proof.
  destruct (string_snoc_inv noteName) as [->|(p & c & ->)]; [done|].
  unfold SamplerSound.replace. rewrite !transform_snoc.
  rewrite !getMIDIFromNoteString_snoc.
  rewrite stoi_toupper, stoi_sharp.
  fold (SamplerSound.replace "S" "#" p).
  by rewrite normalizedNote_toupper, normalizedNote_sharp.
Qed.

(** X5: a note part that is not one of the twelve names is not rejected:
    the search leaves -1, so with the octave digit d the result is
    12 d - 1, the B below, and with the digit 0 the conversion of -1 to
    [uint8_t] is undefined. *)
Theorem getMIDIFromNoteString_unknown_name (p : string) (d : nat) :
  (d < 10)%nat ->
  ~ In (normalizedNote p) SamplerSound.midiTranslationArray ->
  SamplerSound.getMIDIFromNoteString (p ++ String (digit d) EmptyString)
  = if decide (d = 0%nat) then SamplerSound.Undefined
    else SamplerSound.Returns (12 * Z.of_nat d - 1).
Proof.
  intros Hd Hp. rewrite getMIDIFromNoteString_snoc.
  apply (notePosition_absent _ _ 0) in Hp; [|done]. rewrite Hp.
  do 10 (destruct d as [|d]; [reflexivity|]). lia.
Qed.

(** X6: distinct note numbers of a [uint8_t] get distinct names. *)
Theorem getNoteStringFromMIDI_injective (a b : Z) :
  0 <= a <= 255 -> 0 <= b <= 255 ->
  SamplerSound.getNoteStringFromMIDI a = SamplerSound.getNoteStringFromMIDI b ->
  a = b.
Proof.
  intros Ha Hb Heq.
  assert (Hnd : NoDup (map (λ k, SamplerSound.getNoteStringFromMIDI (Z.of_nat k)) (seq 0 256))).
  { apply (bool_decide_unpack _). vm_compute. exact I. }
  rewrite NoDup_alt in Hnd.
  assert (Hl : forall z, 0 <= z <= 255 ->
            map (λ k, SamplerSound.getNoteStringFromMIDI (Z.of_nat k)) (seq 0 256)
              !! Z.to_nat z = Some (SamplerSound.getNoteStringFromMIDI z)).
  { intros z Hz. change (map ?f ?l) with (f <$> l).
    rewrite list_lookup_fmap, lookup_seq_lt by lia. simpl. by rewrite Z2Nat.id by lia. }
  pose proof (Hnd _ _ _ (Hl a Ha) (eq_trans (Hl b Hb) (f_equal Some (eq_sym Heq)))) as H.
  lia.
Qed.

Section MoreProperties.
Context `{Dest : AudioDestinationImpl}.
Implicit Types (w : World) (c : AudioContext).

(** ** The sweep of the automatic sources *)

Lemma eraseFinishedSources_sublist (fin : nat -> bool) (l : list nat) :
  (eraseFinishedSources fin l `sublist_of` l /\
   unfinished fin (eraseFinishedSources fin l) = unfinished fin l) /\
  forall x : nat,
    eraseFinishedSources fin (x :: l) `sublist_of` (x :: l) /\
    unfinished fin (eraseFinishedSources fin (x :: l)) = unfinished fin (x :: l).
Proof.
  unfold unfinished.
  induction l as [|a l [[IH1 IH2] IH3]].
  - split; [done|]. intros x. simpl. destruct (fin x) eqn:E.
    + split; [by apply sublist_cons|]. by rewrite filter_cons_False by congruence.
    + done.
  - split; [apply IH3|]. intros x.
    change (eraseFinishedSources fin (x :: a :: l))
      with (if fin x then a :: eraseFinishedSources fin l
            else x :: eraseFinishedSources fin (a :: l)).
    destruct (fin x) eqn:E.
    + split; [by apply sublist_cons, sublist_skip|].
      rewrite (filter_cons_False _ x) by congruence.
      rewrite !(filter_cons _ a). by rewrite IH2.
    + destruct (IH3 a) as [H1 H2]. split; [by apply sublist_skip|].
      rewrite !(filter_cons_True _ x) by done. by rewrite H2.
Qed.

(** X7: one sweep of [handleAutomaticSources] only takes entries away,
    keeping the order of the rest, and never takes away a source that has
    not finished. *)
Theorem handleAutomaticSources_keeps_unfinished w :
  automaticSources (ctx (handleAutomaticSources w)) `sublist_of` automaticSources (ctx w) /\
  unfinished (λ n, hasFinished n (internals (nodes w)))
    (automaticSources (ctx (handleAutomaticSources w)))
  = unfinished (λ n, hasFinished n (internals (nodes w))) (automaticSources (ctx w)) /\
  nodes (handleAutomaticSources w) = nodes w.
Proof.
  destruct (eraseFinishedSources_sublist (λ n, hasFinished n (internals (nodes w)))
              (automaticSources (ctx w))) as [[H1 H2] _].
  split; [exact H1|]. split; [exact H2|done].
Qed.

Lemma eraseFinishedSources_progress (fin : nat -> bool) (l : list nat) :
  (eraseFinishedSources fin l = l /\ unfinished fin l = l) \/
  (length (eraseFinishedSources fin l) < length l)%nat.
Proof.
  induction l as [|x l IH]; [by left|]. cbn [eraseFinishedSources].
  destruct (fin x) eqn:E.
  - right. destruct l as [|y l]; simpl; [lia|].
    destruct (eraseFinishedSources_sublist fin l) as [[H _] _].
    apply sublist_length in H. lia.
  - destruct IH as [[H1 H2]|H].
    + left. unfold unfinished in *. rewrite filter_cons_True by done. by rewrite H1, H2.
    + right. simpl. lia.
Qed.

Lemma iter_eraseFinishedSources (fin : nat -> bool) (k : nat) (l : list nat) :
  (length l <= k)%nat ->
  Nat.iter k (eraseFinishedSources fin) l = unfinished fin l.
Proof.
  revert l. induction k as [|k IH]; intros l Hl.
  - destruct l; [done|simpl in Hl; lia].
  - rewrite Nat.iter_succ_r.
    destruct (eraseFinishedSources_progress fin l) as [[H1 H2]|H].
    + rewrite H1, H2. clear IH Hl. induction k as [|k IHk]; simpl; [done|].
      by rewrite IHk.
    + rewrite IH by lia.
      by destruct (eraseFinishedSources_sublist fin l) as [[_ ->] _].
Qed.

Lemma iter_handleAutomaticSources (k : nat) w :
  nodes (Nat.iter k handleAutomaticSources w) = nodes w /\
  automaticSources (ctx (Nat.iter k handleAutomaticSources w))
  = Nat.iter k (eraseFinishedSources (λ n, hasFinished n (internals (nodes w))))
      (automaticSources (ctx w)).
Proof.
  induction k as [|k [IH1 IH2]]; [done|]. simpl. split; [done|].
  by rewrite IH1, IH2.
Qed.

(** X8: a sweep can step over a finished source, but as many sweeps as
    there are sources leave exactly the sources that have not finished, in
    their order. *)
Theorem handleAutomaticSources_releases_all (k : nat) w :
  (length (automaticSources (ctx w)) <= k)%nat ->
  automaticSources (ctx (Nat.iter k handleAutomaticSources w))
  = unfinished (λ n, hasFinished n (internals (nodes w))) (automaticSources (ctx w)).
Proof.
  intros Hk. destruct (iter_handleAutomaticSources k w) as [_ ->].
  by apply iter_eraseFinishedSources.
Qed.

(** ** Deferred deletion *)

(** X9: [scheduleNodeDeletion] neither loses nor repeats a node waiting to
    be destroyed; it does nothing without the render lock, before
    initialisation, while a deletion is scheduled already, or when no node
    is marked, and in every other case moves every marked node to the list
    to delete and sets the flag. *)
Theorem scheduleNodeDeletion_conserves (r_context : bool) c :
  pendingDeletions (scheduleNodeDeletion r_context c) = pendingDeletions c /\
  (m_isInitialized c = false \/ r_context = false \/ m_isDeletionScheduled c = true \/
   m_nodesMarkedForDeletion c = [] ->
   scheduleNodeDeletion r_context c = c) /\
  (m_isInitialized c = true -> r_context = true -> m_isDeletionScheduled c = false ->
   m_nodesMarkedForDeletion c <> [] ->
   m_nodesToDelete (scheduleNodeDeletion r_context c)
   = m_nodesToDelete c ++ m_nodesMarkedForDeletion c /\
   m_nodesMarkedForDeletion (scheduleNodeDeletion r_context c) = [] /\
   m_isDeletionScheduled (scheduleNodeDeletion r_context c) = true).
Proof.
  unfold scheduleNodeDeletion, pendingDeletions.
  split; [|split].
  - destruct (m_isInitialized c), r_context; simpl; try done.
    case_bool_decide; simpl; [done|].
    destruct (m_isDeletionScheduled c); simpl; [done|]. by rewrite app_nil_r.
  - intros [Hc | [Hc | [Hc | Hc]]]; rewrite Hc; simpl; [done|by rewrite andb_false_r| |].
    + destruct (negb _); [done|]. by rewrite andb_false_r.
    + by destruct (negb _).
  - intros -> -> -> Hm. simpl. by rewrite bool_decide_false.
Qed.

Lemma clearStep_fields c :
  m_nodesToDelete (clearStep c) = m_nodesMarkedForDeletion c /\
  m_nodesMarkedForDeletion (clearStep c) = [] /\
  m_isDeletionScheduled (clearStep c) = false.
Proof. done. Qed.

Lemma clearStep_clearStep c :
  clearStep (clearStep c) = set_deletion [] [] false c.
Proof. destruct c; reflexivity. Qed.

Lemma clear_two_rounds (fuel : nat) c :
  clear (S (S fuel)) c = Some (set_deletion [] [] false c).
Proof.
  cbn [clear]. destruct (clearStep_fields c) as (H1 & _ & _).
  destruct (clearStep_fields (clearStep c)) as (H2 & _ & _).
  destruct (clearStep_fields c) as (_ & H3 & _). rewrite H3 in H2.
  rewrite H2, H1. case_bool_decide as Hm; cbn [negb].
  - f_equal. destruct c; simpl in *. by subst.
  - by rewrite clearStep_clearStep.
Qed.

(** X10: the loop of [clear] ends after at most two rounds, whatever is
    marked or scheduled, with nothing left to delete, nothing marked and
    no deletion scheduled; one round is enough exactly when no node is
    marked. *)
Theorem clear_terminates (fuel : nat) c :
  clear (S (S fuel)) c = Some (set_deletion [] [] false c) /\
  (clear 1 c = None <-> m_nodesMarkedForDeletion c <> []).
Proof.
  split; [apply clear_two_rounds|].
  - cbn [clear]. destruct (clearStep_fields c) as (-> & _ & _).
    case_bool_decide; simpl; split; done.
Qed.

(** ** The life cycle *)

Lemma atomicDecrement_atomicIncrement (x : Z) :
  INT_MIN <= x <= INT_MAX -> atomicDecrement (atomicIncrement x) = x.
Proof.
  intros H. unfold atomicDecrement, atomicIncrement.
  destruct (decide (x = INT_MAX)) as [->|Hne]; [by vm_compute|].
  rewrite (wrap_int_id (x + 1)) by (unfold INT_MIN, INT_MAX in *; lia).
  replace (x + 1 - 1) with x by lia. by apply wrap_int_id.
Qed.

Lemma atomicIncrement_atomicDecrement (x : Z) :
  INT_MIN <= x <= INT_MAX -> atomicIncrement (atomicDecrement x) = x.
Proof.
  intros H. unfold atomicDecrement, atomicIncrement.
  destruct (decide (x = INT_MIN)) as [->|Hne]; [by vm_compute|].
  rewrite (wrap_int_id (x - 1)) by (unfold INT_MIN, INT_MAX in *; lia).
  replace (x - 1 + 1) with x by lia. by apply wrap_int_id.
Qed.

Lemma lazyInitialize_initialized (s : Z) w :
  m_isInitialized (ctx w) = true -> lazyInitialize s w = (s, w).
Proof. intros H. unfold lazyInitialize. by rewrite H. Qed.

Lemma lazyInitialize_result (s : Z) w :
  m_isInitialized (ctx (lazyInitialize s w).2) = true \/ lazyInitialize s w = (s, w).
Proof.
  unfold lazyInitialize.
  destruct (m_isInitialized (ctx w)); cbn [negb]; [by right|].
  destruct (m_isAudioThreadFinished (ctx w)); cbn [negb]; [by right|]. left.
  destruct (m_destinationNode (ctx w)) as [d|];
    [destruct (m_isOfflineContext (ctx w))|]; done.
Qed.

(** X11: [lazyInitialize] acts once: a second call changes neither the
    context nor the count of hardware contexts, and after [uninitialize]
    has run on an initialised context it never initialises again. *)
Theorem lazyInitialize_once (s : Z) w :
  lazyInitialize (lazyInitialize s w).1 (lazyInitialize s w).2 = lazyInitialize s w /\
  (forall s' w', m_isInitialized (ctx w) = true -> uninitialize s w = Some (s', w') ->
     m_isInitialized (ctx w') = false /\ lazyInitialize s' w' = (s', w')).
Proof.
  split.
  - destruct (lazyInitialize_result s w) as [H|H].
    + destruct (lazyInitialize s w) as [s1 w1]. by apply lazyInitialize_initialized.
    + by rewrite H.
  - intros s' w' Hi H. unfold uninitialize in H. rewrite Hi in H. cbn [negb] in H.
    destruct (m_destinationNode (ctx w)) as [d|]; [|done].
    injection H as <- <-. done.
Qed.

(** X12: initialising a context that has a destination and then
    uninitialising it leaves the count of hardware contexts as it was, with
    the reference list emptied; for a hardware context the count is one
    higher in between, for an offline context it never moves. *)
Theorem lazyInitialize_uninitialize_balance (s : Z) (d : nat) w :
  INT_MIN <= s <= INT_MAX ->
  m_isInitialized (ctx w) = false ->
  m_isAudioThreadFinished (ctx w) = false ->
  m_destinationNode (ctx w) = Some d ->
  (lazyInitialize s w).1
  = (if m_isOfflineContext (ctx w) then s else atomicIncrement s) /\
  m_isInitialized (ctx (lazyInitialize s w).2) = true /\
  exists w',
    uninitialize (lazyInitialize s w).1 (lazyInitialize s w).2 = Some (s, w') /\
    m_isInitialized (ctx w') = false /\
    m_isAudioThreadFinished (ctx w') = true /\
    m_referencedNodes (ctx w') = [].
Proof.
  intros Hs Hi Hf Hd. unfold lazyInitialize. rewrite Hi, Hf, Hd. cbn [negb].
  destruct (m_isOfflineContext (ctx w)) eqn:Ho; cbn [negb fst snd].
  - split; [done|]. split; [done|]. eexists.
    unfold uninitialize. cbn [ctx on_ctx on_nodes m_isInitialized set_lifecycle negb].
    simpl. rewrite Hd, Ho. simpl. done.
  - split; [done|]. split; [done|]. eexists.
    unfold uninitialize. cbn [ctx on_ctx on_nodes m_isInitialized set_lifecycle negb].
    simpl. rewrite Hd, Ho. simpl. rewrite atomicDecrement_atomicIncrement by done. done.
Qed.

(** X13: a context without a destination node is marked initialised all
    the same, with the hardware count untouched; [uninitialize] then
    dereferences the null destination. *)
Theorem lazyInitialize_without_destination (s : Z) w :
  m_isInitialized (ctx w) = false ->
  m_isAudioThreadFinished (ctx w) = false ->
  m_destinationNode (ctx w) = None ->
  (lazyInitialize s w).1 = s /\
  m_isInitialized (ctx (lazyInitialize s w).2) = true /\
  nodes (lazyInitialize s w).2 = nodes w /\
  uninitialize (lazyInitialize s w).1 (lazyInitialize s w).2 = None.
Proof.
  intros Hi Hf Hd. unfold lazyInitialize. rewrite Hi, Hf, Hd. cbn [negb fst snd].
  repeat split. unfold uninitialize. simpl. by rewrite Hd.
Qed.

(** X14: [stop] acts once. On an initialised context with a destination
    it returns, and leaves the context uninitialised, with the reference
    list, the list to delete and the marked list empty and no deletion
    scheduled; a second [stop] changes nothing. *)
Theorem stop_once (fuel : nat) (s : Z) (d : nat) w :
  m_isStopScheduled (ctx w) = false ->
  m_isInitialized (ctx w) = true ->
  m_destinationNode (ctx w) = Some d ->
  exists s' w',
    stop (S (S fuel)) s w = Some (s', w') /\
    s' = (if m_isOfflineContext (ctx w) then s else atomicDecrement s) /\
    m_isStopScheduled (ctx w') = true /\
    m_isInitialized (ctx w') = false /\
    m_referencedNodes (ctx w') = [] /\
    m_nodesToDelete (ctx w') = [] /\
    m_nodesMarkedForDeletion (ctx w') = [] /\
    m_isDeletionScheduled (ctx w') = false /\
    stop (S (S fuel)) s' w' = Some (s', w').
Proof.
  intros Hs Hi Hd. unfold stop at 1. rewrite Hs.
  unfold uninitialize. cbn [ctx on_ctx on_nodes nodes m_isInitialized set_lifecycle
                             m_destinationNode negb].
  rewrite Hi, Hd. cbn [negb mbind option_bind].
  cbn [ctx on_ctx on_nodes nodes m_isOfflineContext set_lifecycle].
  rewrite clear_two_rounds.
  cbn [mbind option_bind]. do 2 eexists. split; [reflexivity|].
  split; [by destruct (m_isOfflineContext (ctx w))|].
  repeat (split; [done|]). unfold stop. done.
Qed.

(** X15: a context that was never initialised is not cleaned by [stop]:
    [uninitialize] returns at once, so the reference list and the count of
    hardware contexts stay as they were; only the deletion lists are
    emptied. *)
Theorem stop_before_initialisation (fuel : nat) (s : Z) w :
  m_isStopScheduled (ctx w) = false ->
  m_isInitialized (ctx w) = false ->
  exists w',
    stop (S (S fuel)) s w = Some (s, w') /\
    m_referencedNodes (ctx w') = m_referencedNodes (ctx w) /\
    m_finishedNodes (ctx w') = m_finishedNodes (ctx w) /\
    m_nodesToDelete (ctx w') = [] /\
    m_nodesMarkedForDeletion (ctx w') = [] /\
    nodes w' = nodes w.
Proof.
  intros Hs Hi. unfold stop. rewrite Hs.
  unfold uninitialize. cbn [ctx on_ctx m_isInitialized set_lifecycle].
  rewrite Hi. cbn [negb mbind option_bind].
  rewrite clear_two_rounds.
  cbn [mbind option_bind]. eexists. split; [reflexivity|]. done.
Qed.

(** X16: the count of active sources comes back after an increment and a
    decrement, in either order, also across the ends of [int], where the
    increment of [INT_MAX] is [INT_MIN]. *)
Theorem activeSourceCount_round_trip c :
  INT_MIN <= m_activeSourceCount c <= INT_MAX ->
  decrementActiveSourceCount (incrementActiveSourceCount c) = c /\
  incrementActiveSourceCount (decrementActiveSourceCount c) = c /\
  (m_activeSourceCount c = INT_MAX ->
   m_activeSourceCount (incrementActiveSourceCount c) = INT_MIN).
Proof.
  intros H. unfold decrementActiveSourceCount, incrementActiveSourceCount.
  split; [|split].
  - destruct c; simpl in *. by rewrite atomicDecrement_atomicIncrement.
  - destruct c; simpl in *. by rewrite atomicIncrement_atomicDecrement.
  - intros Hc. simpl. by rewrite Hc.
Qed.

(** ** The automatic-pull registry *)

Lemma for_each_ctx_fields (l : list PendingNodeConnection.t) w w' :
  for_each applyPendingNodeConnection l w = Some w' ->
  m_automaticPullNodes (ctx w') = m_automaticPullNodes (ctx w) /\
  pendingConnections (ctx w') = pendingConnections (ctx w) /\
  pendingNodeConnections (ctx w') = pendingNodeConnections (ctx w) /\
  m_finishedNodes (ctx w') = m_finishedNodes (ctx w).
Proof.
  revert w. induction l as [|i l IH]; simpl; intros w H.
  - by injection H as <-.
  - destruct (applyPendingNodeConnection i w) as [w1|] eqn:Hi; [|done]. simpl in H.
    apply IH in H as (-> & -> & -> & ->).
    unfold applyPendingNodeConnection in Hi.
    destruct i as [[f|] [t|] []]; simpl in Hi; try done; by injection Hi as <-.
Qed.

Lemma foldl_derefNode_fields (l : list nat) c :
  m_automaticPullNodes (foldl (λ c' n, derefNode n c') c l) = m_automaticPullNodes c /\
  pendingConnections (foldl (λ c' n, derefNode n c') c l) = pendingConnections c /\
  pendingNodeConnections (foldl (λ c' n, derefNode n c') c l) = pendingNodeConnections c.
Proof.
  revert c. induction l as [|n l IH]; simpl; intros c; [done|].
  destruct (IH (derefNode n c)) as (-> & -> & ->). done.
Qed.

(** What one cycle leaves in the context besides the reference list. *)
Lemma update_ctx_fields w w' :
  update w = Some w' ->
  m_automaticPullNodes (ctx w') = m_automaticPullNodes (ctx w) /\
  pendingConnections (ctx w') = [] /\
  pendingNodeConnections (ctx w') = [] /\
  m_finishedNodes (ctx w') = [].
Proof.
  intros H. unfold update in H.
  destruct (for_each _ _ _) as [w1|] eqn:Hw1; [|done]. simpl in H.
  injection H as <-. apply for_each_ctx_fields in Hw1 as (H1 & H2 & _ & _).
  simpl in H1, H2. rewrite foldl_applyPendingConnection_ctx in H1.
  unfold derefFinishedSourceNodes. simpl.
  destruct (foldl_derefNode_fields (m_finishedNodes (ctx w1))
              (set_pendingNodeConnections [] (ctx w1))) as (-> & -> & ->).
  simpl. done.
Qed.

Lemma update_registry w w' :
  update w = Some w' ->
  m_renderingAutomaticPullNodes (ctx w') = m_renderingAutomaticPullNodes (ctx w) /\
  m_automaticPullNodesNeedUpdating (ctx w') = m_automaticPullNodesNeedUpdating (ctx w).
Proof.
  intros H. unfold update in H.
  destruct (for_each _ _ _) as [w1|] eqn:Hw1; [|done]. simpl in H.
  injection H as <-. simpl.
  apply for_each_registry in Hw1 as [H1 H2]. simpl in H1, H2.
  rewrite foldl_applyPendingConnection_ctx in H1, H2.
  unfold derefFinishedSourceNodes. simpl.
  destruct (foldl_derefNode_registry (m_finishedNodes (ctx w1))
              (set_pendingNodeConnections [] (ctx w1))) as [-> ->].
  simpl. done.
Qed.

(** X17: the snapshot and the write-side set agree whenever the dirty flag
    is clear: this holds of a context just constructed and is kept by
    adding and removing pull nodes, by rebuilding the snapshot, by both
    render hooks and by [update]. *)
Theorem snapshotInSync_invariant (n : nat) (r_context : bool) w :
  snapshotInSync AudioContext_hardware /\
  (snapshotInSync (ctx w) ->
   snapshotInSync (addAutomaticPullNode n (ctx w)) /\
   snapshotInSync (removeAutomaticPullNode n (ctx w)) /\
   snapshotInSync (updateAutomaticPullNodes (ctx w)) /\
   snapshotInSync (ctx (handlePreRenderTasks w)) /\
   snapshotInSync (ctx (handlePostRenderTasks r_context w)) /\
   (forall w', update w = Some w' -> snapshotInSync (ctx w'))).
Proof.
  split; [done|]. intros Hw. unfold snapshotInSync in *.
  assert (Hu : forall c, (m_automaticPullNodesNeedUpdating c = false ->
                          m_renderingAutomaticPullNodes c = m_automaticPullNodes c) ->
            m_automaticPullNodesNeedUpdating (updateAutomaticPullNodes c) = false ->
            m_renderingAutomaticPullNodes (updateAutomaticPullNodes c)
            = m_automaticPullNodes (updateAutomaticPullNodes c)).
  { intros c Hc _. destruct (updateAutomaticPullNodes_registry c) as (-> & _ & ->).
    destruct (m_automaticPullNodesNeedUpdating c); [done|by apply Hc]. }
  split; [|split; [|split; [|split; [|split]]]].
  - unfold addAutomaticPullNode. by case_decide.
  - unfold removeAutomaticPullNode. by case_decide.
  - by apply Hu.
  - by apply Hu.
  - cbn [handlePostRenderTasks handleAutomaticSources ctx on_ctx on_nodes].
    change (m_automaticPullNodesNeedUpdating (set_automaticSources ?l ?c))
      with (m_automaticPullNodesNeedUpdating c).
    change (m_renderingAutomaticPullNodes (set_automaticSources ?l ?c))
      with (m_renderingAutomaticPullNodes c).
    change (m_automaticPullNodes (set_automaticSources ?l ?c))
      with (m_automaticPullNodes c).
    apply Hu. destruct (scheduleNodeDeletion_registry r_context (ctx w)) as (-> & -> & ->).
    done.
  - intros w' H.
    destruct (update_registry w w' H) as [-> ->].
    apply update_ctx_fields in H as (-> & _). done.
Qed.

Lemma ascending_set_insert (n : nat) (l : list nat) :
  ascending l -> ascending (set_insert n l).
Proof.
  unfold ascending. induction 1 as [|x l Hs IH Hx]; simpl.
  - by repeat constructor.
  - repeat case_decide; subst.
    + constructor; [by constructor|]. constructor; [done|].
      eapply Forall_impl; [exact Hx|]. simpl. lia.
    + by constructor.
    + constructor; [done|]. apply Forall_forall. intros y Hy.
      apply elem_of_set_insert in Hy as [-> | Hy]; [lia|].
      rewrite Forall_forall in Hx. by apply Hx.
Qed.

Lemma ascending_erase_first (n : nat) (l : list nat) :
  ascending l -> ascending (erase_first n l) /\ n ∉ erase_first n l.
Proof.
  unfold ascending. induction 1 as [|x l Hs [IH1 IH2] Hx]; simpl.
  - split; [constructor|apply not_elem_of_nil].
  - case_decide; subst.
    + split; [done|]. intros Hin. rewrite Forall_forall in Hx.
      apply Hx in Hin. lia.
    + split.
      * constructor; [done|]. apply Forall_forall. intros y Hy.
        rewrite Forall_forall in Hx. apply Hx.
        assert (Hsub : forall m (k : list nat) z, z ∈ erase_first m k -> z ∈ k).
        { intros m k z. induction k as [|a k IHk]; simpl; [done|].
          case_decide; rewrite !elem_of_cons; tauto. }
        by apply Hsub in Hy.
      * rewrite not_elem_of_cons. done.
Qed.

Lemma erase_first_set_insert (n : nat) (l : list nat) :
  n ∉ l -> erase_first n (set_insert n l) = l.
Proof.
  induction l as [|x l IH]; simpl; intros Hn.
  - by rewrite decide_True.
  - apply not_elem_of_cons in Hn as [Hx Hl].
    repeat case_decide; subst; simpl; try done.
    + by rewrite decide_True.
    + rewrite decide_False by done. by rewrite IH.
Qed.

(** X18: the write-side set stays strictly ascending, as a [std::set]
    does; after [addAutomaticPullNode] the node is in it, after
    [removeAutomaticPullNode] it is not. *)
Theorem automaticPullNodes_ascending (n : nat) c :
  ascending (m_automaticPullNodes AudioContext_hardware) /\
  (ascending (m_automaticPullNodes c) ->
   ascending (m_automaticPullNodes (addAutomaticPullNode n c)) /\
   n ∈ m_automaticPullNodes (addAutomaticPullNode n c) /\
   ascending (m_automaticPullNodes (removeAutomaticPullNode n c)) /\
   n ∉ m_automaticPullNodes (removeAutomaticPullNode n c)).
Proof.
  split; [constructor|]. intros Hc.
  unfold addAutomaticPullNode, removeAutomaticPullNode.
  destruct (decide (n ∉ m_automaticPullNodes c)) as [Hn|Hn];
    destruct (decide (n ∈ m_automaticPullNodes c)) as [Hm|Hm]; simpl; try done.
  - split; [by apply ascending_set_insert|].
    split; [apply elem_of_set_insert; by left|done].
  - split; [done|]. split; [done|]. by apply ascending_erase_first.
Qed.

(** X19: registering a node that was not registered and unregistering it
    again restores the write-side set, but leaves the dirty flag set: the
    next render hook copies the set again. *)
Theorem addAutomaticPullNode_removeAutomaticPullNode (n : nat) c :
  n ∉ m_automaticPullNodes c ->
  m_automaticPullNodes (removeAutomaticPullNode n (addAutomaticPullNode n c))
  = m_automaticPullNodes c /\
  m_automaticPullNodesNeedUpdating (removeAutomaticPullNode n (addAutomaticPullNode n c))
  = true /\
  m_renderingAutomaticPullNodes (removeAutomaticPullNode n (addAutomaticPullNode n c))
  = m_renderingAutomaticPullNodes c.
Proof.
  intros Hn. unfold addAutomaticPullNode. rewrite decide_True by done.
  unfold removeAutomaticPullNode. simpl.
  rewrite decide_True by (apply elem_of_set_insert; by left). simpl.
  by rewrite erase_first_set_insert.
Qed.

(** ** The reference list *)

Lemma erase_first_absent (n : nat) (l : list nat) : n ∉ l -> erase_first n l = l.
Proof.
  induction l as [|x l IH]; simpl; intros Hn; [done|].
  apply not_elem_of_cons in Hn as [Hx Hl]. rewrite decide_False by done.
  by rewrite IH.
Qed.

(** X20: [derefNode] takes away one entry of the node and no entry of any
    other; on a node without an entry it changes nothing; after [refNode]
    it restores the number of entries of every node. *)
Theorem derefNode_one_entry (n m : nat) c :
  referenceEntries m (derefNode n c)
  = (if decide (m = n) then Nat.pred (referenceEntries m c) else referenceEntries m c) /\
  (n ∉ m_referencedNodes c -> derefNode n c = c) /\
  referenceEntries m (derefNode n (refNode n c)) = referenceEntries m c.
Proof.
  unfold referenceEntries, derefNode, refNode. simpl.
  split; [apply count_occ_erase_first|]. split.
  - intros Hn. unfold set_m_referencedNodes. rewrite erase_first_absent by done.
    by destruct c.
  - rewrite count_occ_erase_first, count_occ_app. simpl.
    case_decide; subst; destruct (Nat.eq_dec _ _); try done; lia.
Qed.

(** X21: connect(from, to) followed by disconnect(from, to) brings every
    connection reference count back, also across the ends of [int], and
    the number of entries of every node in the reference list. *)
Theorem connect_disconnect_round_trip (from to n : nat) w :
  INT_MIN <= connectionRefCount from (nodes w) <= INT_MAX ->
  INT_MIN <= connectionRefCount to (nodes w) <= INT_MAX ->
  connectionRefCount n (nodes (disconnectNodes from to (connectNodes from to w)))
  = connectionRefCount n (nodes w) /\
  referenceEntries n (ctx (disconnectNodes from to (connectNodes from to w)))
  = referenceEntries n (ctx w).
Proof.
  intros Hf Ht. split.
  - rewrite connectionRefCount_disconnectNodes, !connectionRefCount_connectNodes.
    pose proof (wrap_int_range (connectionRefCount from (nodes w) + 1)) as Hwf.
    fold (atomicIncrement (connectionRefCount from (nodes w))) in Hwf.
    repeat case_decide; subst; try done;
      rewrite ?atomicDecrement_atomicIncrement by done; done.
  - unfold referenceEntries.
    rewrite disconnectNodes_referenced, connectNodes_referenced.
    rewrite !count_occ_erase_first, count_occ_app. simpl.
    repeat case_decide; subst; repeat (destruct (Nat.eq_dec _ _); try done); lia.
Qed.

(** The endpoints of a list of edges, as the connect branch references
    them. *)
Lemma applyAll_connects (ps : list (nat * nat)) w :
  (forall n : nat, connectionRefCount n (nodes w) = Z.of_nat (referenceEntries n (ctx w))) ->
  Z.of_nat (length (m_referencedNodes (ctx w))) + 2 * Z.of_nat (length ps) <= INT_MAX ->
  m_referencedNodes (ctx (applyAll (map (λ p, Connect p.1 p.2) ps) w))
  = m_referencedNodes (ctx w) ++ flat_map (λ p, [p.1; p.2]) ps /\
  forall n : nat,
    connectionRefCount n (nodes (applyAll (map (λ p, Connect p.1 p.2) ps) w))
    = Z.of_nat (referenceEntries n (ctx (applyAll (map (λ p, Connect p.1 p.2) ps) w))).
Proof.
  unfold applyAll. revert w. induction ps as [|[f t] ps IH]; intros w Hw Hlen.
  - simpl. by rewrite app_nil_r.
  - cbn [map foldl applyRequest fst snd flat_map].
    assert (Hbound : forall n : nat,
              0 <= connectionRefCount n (nodes w)
                <= Z.of_nat (length (m_referencedNodes (ctx w)))).
    { intros n. rewrite Hw. unfold referenceEntries.
      pose proof (count_occ_bound Nat.eq_dec n (m_referencedNodes (ctx w))). lia. }
    assert (Hinc : forall x, 0 <= x <= INT_MAX - 1 -> atomicIncrement x = x + 1).
    { intros x Hx. unfold atomicIncrement. apply wrap_int_id.
      unfold INT_MIN, INT_MAX in *. lia. }
    destruct (IH (connectNodes f t w)) as [H1 H2].
    + intros n. rewrite connectionRefCount_connectNodes. unfold referenceEntries.
      rewrite connectNodes_referenced, count_occ_app. simpl.
      pose proof (Hbound n). pose proof (Hbound f). pose proof (Hbound t).
      pose proof (Hw n) as Hn. pose proof (Hw f) as Hwf. pose proof (Hw t) as Hwt.
      unfold referenceEntries in Hn, Hwf, Hwt.
      simpl length in Hlen.
      repeat case_decide; subst; repeat (destruct (Nat.eq_dec _ _); try done);
        rewrite ?Hinc by (rewrite ?Hinc by lia; lia); lia.
    + rewrite connectNodes_referenced, length_app. simpl length in *. lia.
    + split; [|exact H2]. rewrite H1, connectNodes_referenced.
      by rewrite <- app_assoc.
Qed.

(** X22: after one cycle of connects alone on the empty graph, the
    reference list holds the two endpoints of every edge in the order of
    the requests, and the connection reference count of every node is the
    number of its entries there, as long as the entries number at most
    [INT_MAX]. *)
Theorem connects_are_counted (ps : list (nat * nat)) (i : NodeInternals) :
  2 * Z.of_nat (length ps) <= INT_MAX ->
  exists w',
    update (on_ctx (submitAll (map (λ p, Connect p.1 p.2) ps)) (emptyWorld i)) = Some w' /\
    m_referencedNodes (ctx w') = flat_map (λ p, [p.1; p.2]) ps /\
    forall n : nat,
      connectionRefCount n (nodes w') = Z.of_nat (referenceEntries n (ctx w')).
Proof.
  intros Hlen. eexists. split.
  { apply (update_submitAll_quiescent _ (emptyWorld i)). by repeat split. }
  destruct (applyAll_connects ps (emptyWorld i)) as [H1 H2]; [done|simpl; lia|].
  split; [by rewrite H1|exact H2].
Qed.

(** X23: a referenced node that the render path reports finished loses
    one entry of the reference list in the next cycle, and nothing else
    changes: its connection reference count stays what it was. A report
    for a node without an entry is dropped. *)
Theorem finished_node_is_dereferenced (n : nat) w :
  quiescent (ctx w) ->
  (n ∉ m_referencedNodes (ctx w) -> notifyNodeFinishedProcessing n (ctx w) = ctx w) /\
  (n ∈ m_referencedNodes (ctx w) ->
   exists w',
     update (on_ctx (notifyNodeFinishedProcessing n) w) = Some w' /\
     m_referencedNodes (ctx w') = erase_first n (m_referencedNodes (ctx w)) /\
     m_finishedNodes (ctx w') = [] /\
     nodes w' = nodes w).
Proof.
  intros (Hpc & Hpn & Hfin). unfold notifyNodeFinishedProcessing. split.
  - intros Hn. by rewrite decide_False.
  - intros Hn. destruct w as [c a]. cbn [ctx nodes] in *.
    set (w1 := {| ctx := set_m_finishedNodes (λ l, l ++ [n]) c; nodes := a |}).
    assert (Hw : on_ctx (λ c', if decide (n ∈ m_referencedNodes c')
                               then set_m_finishedNodes (λ l, l ++ [n]) c' else c')
                   {| ctx := c; nodes := a |} = w1).
    { unfold on_ctx. cbn [ctx nodes]. by rewrite decide_True. }
    rewrite Hw. exists (on_ctx derefFinishedSourceNodes w1). split.
    + pose proof (update_submitAll [] w1 Hpn) as Hu.
      rewrite drainConnections_none in Hu by done. exact Hu.
    + unfold derefFinishedSourceNodes. simpl. rewrite Hfin. simpl. done.
Qed.

(** X24: a cycle that returns leaves nothing staged and nothing to
    harvest, so that a second cycle right after it changes nothing. *)
Theorem update_idempotent w w' :
  update w = Some w' ->
  quiescent (ctx w') /\ update w' = Some w'.
Proof.
  intros H. apply update_ctx_fields in H as (_ & H1 & H2 & H3).
  assert (Hq : quiescent (ctx w')) by done.
  split; [done|]. destruct w' as [c a].
  exact (update_submitAll_quiescent [] {| ctx := c; nodes := a |} Hq).
Qed.

End MoreProperties.

(** * The properties on concrete graphs *)

(** ** Worked examples *)

Example getNoteStringFromMIDI_61 : SamplerSound.getNoteStringFromMIDI 61 = "CS4"%string.
Proof. reflexivity. Qed.

Example getNoteStringFromMIDI_3 : SamplerSound.getNoteStringFromMIDI 3 = "DS-1"%string.
Proof. reflexivity. Qed.

Example getMIDIFromNoteString_Fsharp6 :
  SamplerSound.getMIDIFromNoteString "F#6" = SamplerSound.Returns 78.
Proof. reflexivity. Qed.

Example getMIDIFromNoteString_empty :
  SamplerSound.getMIDIFromNoteString "" = SamplerSound.Throws SamplerSound.out_of_range.
Proof. reflexivity. Qed.

Example eraseFinishedSources_steps_over :
  eraseFinishedSources (λ n, bool_decide (n ≠ 9%nat)) [1; 2; 3; 9]%nat = [2; 9]%nat.
Proof. reflexivity. Qed.

(** The order of the requests matters to the outcome. *)
Example applyAll_order_matters :
  m_referencedNodes (ctx (applyAll [Connect 1 2; Disconnect 1 2] world0)) = [] /\
  m_referencedNodes (ctx (applyAll [Disconnect 1 2; Connect 1 2] world0)) = [1; 2]%nat.
Proof. split; reflexivity. Qed.

(** [disconnect(from)] stages a null [to], which the disconnect branch of
    [update] dereferences. *)
Example update_disconnect_node :
  update (on_ctx (disconnect_node (Some 1%nat)) world0) = None.
Proof. reflexivity. Qed.

(** ** Creation *)

Lemma create_reports_exhaustion_witness :
  create 4 = None /\ create 3 = Some AudioContext_hardware.
Proof.
  split.
  - destruct (create_reports_exhaustion 4) as (_ & H & _). apply H. lia.
  - destruct (create_reports_exhaustion 3) as (_ & _ & H). apply H. lia.
Defined.

Lemma createOfflineContext_validates_witness :
  createOfflineContext false None 11 1024 44100%float NO_ERR = (None, SYNTAX_ERR) /\
  createOfflineContext false None 2 1024 44100%float NO_ERR
  = (Some (AudioContext_offline false 2 1024 44100%float), NO_ERR).
Proof.
  split.
  - destruct (createOfflineContext_validates false None 11 1024 44100%float NO_ERR) as [H _].
    apply H. left. lia.
  - destruct (createOfflineContext_validates false None 2 1024 44100%float NO_ERR) as [_ H].
    apply H. intros [Hc|[Hr|(r & Hl & _)]].
    + lia.
    + apply Hr. split; reflexivity.
    + discriminate Hl.
Defined.

(** ** The automatic-pull registry *)

Lemma automaticPullNode_idempotent_witness :
  m_automaticPullNodes (addAutomaticPullNode 3 AudioContext_hardware) = [3%nat] /\
  m_automaticPullNodesNeedUpdating (addAutomaticPullNode 3 AudioContext_hardware) = true /\
  addAutomaticPullNode 3 (addAutomaticPullNode 3 AudioContext_hardware)
  = addAutomaticPullNode 3 AudioContext_hardware /\
  removeAutomaticPullNode 3 AudioContext_hardware = AudioContext_hardware /\
  m_automaticPullNodesNeedUpdating
    (removeAutomaticPullNode 3 (addAutomaticPullNode 3 AudioContext_hardware)) = true.
Proof.
  assert (Hout : 3%nat ∉ m_automaticPullNodes AudioContext_hardware) by apply not_elem_of_nil.
  assert (Hin : 3%nat ∈ m_automaticPullNodes (addAutomaticPullNode 3 AudioContext_hardware))
    by (apply list_elem_of_In; simpl; tauto).
  split; [reflexivity|].
  destruct (automaticPullNode_idempotent 3 AudioContext_hardware) as (_ & Hrm & Hadd & _).
  destruct (automaticPullNode_idempotent 3 (addAutomaticPullNode 3 AudioContext_hardware))
    as (Hadd' & _ & _ & Hrm').
  split; [apply (Hadd Hout)|].
  split; [apply (Hadd' Hin)|].
  split; [apply (Hrm Hout)|].
  apply (Hrm' Hin).
Defined.

(** C4 fails as stated: with a registration pending, the pre-render hook
    rebuilds the snapshot and clears the dirty flag, and so does the
    post-render hook, while [update] leaves the stale snapshot in place. *)
Lemma render_hook_rebuilds_snapshot :
  m_renderingAutomaticPullNodes (ctx worldWithPullNode) = [] /\
  m_automaticPullNodesNeedUpdating (ctx worldWithPullNode) = true /\
  m_renderingAutomaticPullNodes (ctx (handlePreRenderTasks worldWithPullNode)) = [7%nat] /\
  m_automaticPullNodesNeedUpdating (ctx (handlePreRenderTasks worldWithPullNode)) = false /\
  m_renderingAutomaticPullNodes (ctx (handlePostRenderTasks true worldWithPullNode)) = [7%nat] /\
  (w ← update worldWithPullNode; Some (m_renderingAutomaticPullNodes (ctx w))) = Some [].
Proof. repeat split; reflexivity. Qed.

Lemma snapshot_rebuilt_by_render_hooks_witness :
  m_renderingAutomaticPullNodes (ctx worldWithPullNode) = [] /\
  m_renderingAutomaticPullNodes (ctx (handlePreRenderTasks worldWithPullNode)) = [7%nat].
Proof.
  destruct (snapshot_rebuilt_by_render_hooks worldWithPullNode true) as [Hu Hh].
  split.
  - destruct (Hu worldWithPullNode) as [H _]; reflexivity.
  - destruct (Hh (handlePreRenderTasks worldWithPullNode)) as [H _]; [by left|].
    rewrite H. reflexivity.
Defined.

(** ** Connecting and disconnecting *)

Lemma quiescent_world0 : quiescent (ctx world0).
Proof. repeat split. Defined.

(** C1 fails as stated: from the empty graph, connect(1, 2) staged twice
    leaves the counter of node 1 at 2 and four entries in the reference
    list, where staging it once leaves 1 and two entries. *)
Lemma connect_twice_differs :
  update (on_ctx (connect (Some 1%nat) (Some 2%nat))
            (on_ctx (connect (Some 1%nat) (Some 2%nat)) world0))
  <> update (on_ctx (connect (Some 1%nat) (Some 2%nat)) world0) /\
  (w ← update (on_ctx (connect (Some 1%nat) (Some 2%nat)) world0);
   Some (connectionRefCount 1 (nodes w), m_referencedNodes (ctx w)))
  = Some (1, [1; 2]%nat) /\
  (w ← update (on_ctx (connect (Some 1%nat) (Some 2%nat))
                 (on_ctx (connect (Some 1%nat) (Some 2%nat)) world0));
   Some (connectionRefCount 1 (nodes w), m_referencedNodes (ctx w)))
  = Some (2, [1; 2; 1; 2]%nat).
Proof.
  split; [|split; reflexivity].
  intros H.
  apply (f_equal (fmap (λ w : World, m_referencedNodes (ctx w)))) in H.
  vm_compute in H. discriminate H.
Qed.

Lemma connect_twice_counts_twice_witness :
  exists w1 w2,
    update (on_ctx (connect (Some 1%nat) (Some 2%nat)) world0) = Some w1 /\
    update (on_ctx (connect (Some 1%nat) (Some 2%nat))
              (on_ctx (connect (Some 1%nat) (Some 2%nat)) world0)) = Some w2 /\
    m_referencedNodes (ctx w2) = m_referencedNodes (ctx w1) ++ [1; 2]%nat.
Proof.
  destruct (connect_twice_counts_twice 1 2 world0 quiescent_world0)
    as (w1 & w2 & H1 & H2 & _ & _ & _ & H3 & _).
  exists w1, w2. repeat split; assumption.
Defined.

(** C3 fails as stated: in the empty graph there is no edge from node 1 to
    node 2, yet disconnect(1, 2) leaves both counters at -1. *)
Lemma disconnect_missing_edge_changes_state :
((1%nat, 0%nat, (2%nat, 0%nat)) ∉ junctions (nodes world0)) /\
  update world0 = Some world0 /\
  update (on_ctx (disconnect (Some 1%nat) (Some 2%nat)) world0) <> Some world0 /\
  (w ← update (on_ctx (disconnect (Some 1%nat) (Some 2%nat)) world0);
   Some (connectionRefCount 1 (nodes w), connectionRefCount 2 (nodes w)))
  = Some (-1, -1).
Proof.
  split; [apply not_elem_of_empty|]. split; [reflexivity|]. split; [|reflexivity].
  intros H.
  apply (f_equal (fmap (λ w : World, connectionRefCount 1 (nodes w)))) in H.
  vm_compute in H. discriminate H.
Qed.

Lemma disconnect_decrements_regardless_witness :
  exists w',
    update (on_ctx (disconnect (Some 1%nat) (Some 2%nat)) world0) = Some w' /\
    connectionRefCount 1 (nodes w') = -1.
Proof.
  destruct (disconnect_decrements_regardless 1 2 world0 quiescent_world0)
    as (w' & H1 & _ & _ & H2 & _).
  exists w'. split; [assumption|]. rewrite H2. reflexivity.
Defined.

(** C5 fails as stated: connect(1, 2) followed by disconnect of the output
    of node 1 leaves no edge when the two are applied in the order of the
    calls, but [update] applies the port request first and the edge is
    there after the cycle; and after connect(1, 2) followed by
    disconnect(1), [update] produces no state at all. *)
Lemma update_reorders_across_queues :
  junctions (nodes (applyEach connectThenDisconnectOutput world0)) = ∅ /\
  (w ← update (on_ctx (submitEach connectThenDisconnectOutput) world0);
   Some (junctions (nodes w)))
  = Some {[ (1%nat, 0%nat, (2%nat, 0%nat)) ]} /\
  (w ← update (on_ctx (submitEach connectThenDisconnectOutput) world0);
   Some (bool_decide (junctions (nodes w)
                      = junctions (nodes (applyEach connectThenDisconnectOutput world0)))))
  = Some false /\
  update (on_ctx (disconnect_node (Some 1%nat))
            (on_ctx (connect (Some 1%nat) (Some 2%nat)) world0)) = None.
Proof. repeat split; by vm_compute. Qed.

Lemma update_applies_each_queue_in_order_witness :
  exists w',
    update (on_ctx (submitEach connectThenDisconnectOutput) world0) = Some w' /\
    w' = connectNodes 1 2 world0.
Proof.
  destruct (update_applies_each_queue_in_order connectThenDisconnectOutput world0
              eq_refl eq_refl) as (w' & H1 & _ & _ & H2).
  exists w'. split; [exact H1|]. rewrite H2. reflexivity.
Defined.

Lemma scenario_A_witness :
  exists w',
    update (on_ctx (connect (Some 2%nat) (Some 3%nat))
              (on_ctx (connect (Some 1%nat) (Some 2%nat)) world0)) = Some w' /\
    connectionRefCount 1 (nodes w') = 1 /\
    connectionRefCount 2 (nodes w') = 2.
Proof.
  destruct (@scenario_A flagNodes 1 2 3 (∅, ∅)) as (w' & H1 & _ & _ & H2 & H3); [lia..|].
  exists w'. repeat split; assumption.
Defined.

(** ** The invariant of the reference list *)

(** C2 fails as stated: with nodes 1 and 2 connected the invariant holds,
    and [derefNode], and [derefFinishedSourceNodes] once node 1 is reported
    finished, take node 1 out of the reference list while its counter
    is 1. *)
Lemma derefNode_breaks_invariant :
  referencedWhileConnected worldConnected /\
  connectionRefCount 1 (nodes worldConnected) = 1 /\
  ~ referencedWhileConnected (on_ctx (derefNode 1) worldConnected) /\
  ~ referencedWhileConnected
      (on_ctx (λ c, derefFinishedSourceNodes (notifyNodeFinishedProcessing 1 c))
         worldConnected).
Proof.
  split; [|split; [reflexivity|split]].
  - apply referencedWhileConnected_alt. intros n.
    unfold worldConnected. rewrite connectionRefCount_connectNodes, connectNodes_referenced.
    repeat case_decide; subst; intros Hn; apply list_elem_of_In; simpl; try tauto.
    vm_compute in Hn. discriminate Hn.
  - intros H.
    pose proof (proj1 (referencedWhileConnected_alt _) H 1%nat eq_refl) as H1.
    apply list_elem_of_In in H1. simpl in H1.
    destruct H1 as [H1|[]]. discriminate H1.
  - intros H.
    pose proof (proj1 (referencedWhileConnected_alt _) H 1%nat eq_refl) as H1.
    apply list_elem_of_In in H1. vm_compute in H1.
    destruct H1 as [H1|[]]. discriminate H1.
Qed.

Lemma countedInReferences_world0 : countedInReferences world0.
Proof. apply map_Forall_empty. Defined.

Lemma update_branches_keep_connected_nodes_referenced_witness :
  connectionRefCount 1 (nodes worldConnected) = 1 /\
  connectionRefCount 2 (nodes worldConnected) = 1 /\
  countedInReferences worldConnected /\
  referencedWhileConnected worldConnected /\
  referencedWhileConnected (connectNodes 1 3 worldConnected) /\
  countedInReferences (connectNodes 1 3 worldConnected) /\
  countedInReferences (disconnectNodes 1 2 (connectNodes 1 3 worldConnected)) /\
  referencedWhileConnected (disconnectNodes 1 2 (connectNodes 1 3 worldConnected)) /\
  connectionRefCount 1 (nodes (disconnectNodes 1 2 (connectNodes 1 3 worldConnected))) = 1 /\
  countedInReferences (disconnectAllOf 3 (connectNodes 1 3 worldConnected)).
Proof.
  destruct (update_branches_keep_connected_nodes_referenced 1 2 world0)
    as (_ & _ & Hc0 & _ & _).
  destruct (update_branches_keep_connected_nodes_referenced 1 3 worldConnected)
    as (Hi1 & Hji1 & Hc1 & _ & _).
  destruct (update_branches_keep_connected_nodes_referenced 1 2 (connectNodes 1 3 worldConnected))
    as (_ & _ & _ & Hd2 & _).
  destruct (update_branches_keep_connected_nodes_referenced 1 2
              (disconnectNodes 1 2 (connectNodes 1 3 worldConnected)))
    as (_ & Hji3 & _ & _ & _).
  destruct (update_branches_keep_connected_nodes_referenced 1 3 (connectNodes 1 3 worldConnected))
    as (_ & _ & _ & _ & Ha2).
  assert (J1 : countedInReferences worldConnected)
    by exact (Hc0 countedInReferences_world0).
  assert (I1 : referencedWhileConnected worldConnected) by exact (Hji1 J1).
  assert (J2 : countedInReferences (connectNodes 1 3 worldConnected)) by exact (Hc1 J1).
  assert (J3 : countedInReferences (disconnectNodes 1 2 (connectNodes 1 3 worldConnected))).
  { apply (Hd2 J2); [reflexivity|reflexivity|intros H; discriminate H]. }
  split; [reflexivity|]. split; [reflexivity|].
  split; [exact J1|]. split; [exact I1|].
  split; [exact (Hi1 I1)|]. split; [exact J2|].
  split; [exact J3|]. split; [exact (Hji3 J3)|].
  split; [reflexivity|].
  apply (Ha2 J2). reflexivity.
Defined.

(** ** Note names *)

(** C10 evaluated: middle C, note 60, is named C4, and C4 is read back as
    48. *)
Lemma noteRoundTrip_drops_an_octave_witness :
  SamplerSound.getNoteStringFromMIDI 60 = "C4"%string /\
  noteRoundTrip 60 = SamplerSound.Returns 48.
Proof.
  split; [reflexivity|].
  apply (noteRoundTrip_drops_an_octave 60). lia.
Defined.

(** ** Further properties *)

Lemma getMIDIFromNoteString_table_witness :
  SamplerSound.getMIDIFromNoteString "F#6" = SamplerSound.Returns 78.
Proof. apply (getMIDIFromNoteString_table 6 6); lia. Defined.

Lemma getMIDIFromNoteString_range_witness :
  SamplerSound.getMIDIFromNoteString "B9" = SamplerSound.Returns 119 /\ 0 <= 119 <= 119.
Proof.
  split; [reflexivity|].
  apply (getMIDIFromNoteString_range "B9" 119). reflexivity.
Defined.

Lemma getMIDIFromNoteString_unknown_name_witness :
  SamplerSound.getMIDIFromNoteString "H4" = SamplerSound.Returns 47 /\
  SamplerSound.getMIDIFromNoteString "H0" = SamplerSound.Undefined.
Proof.
  assert (Hn : ~ In (normalizedNote "H") SamplerSound.midiTranslationArray).
  { intros H. simpl in H. repeat (destruct H as [H|H]; [discriminate H|]). exact H. }
  split.
  - apply (getMIDIFromNoteString_unknown_name "H" 4); [lia|exact Hn].
  - apply (getMIDIFromNoteString_unknown_name "H" 0); [lia|exact Hn].
Defined.

Lemma getNoteStringFromMIDI_injective_witness :
  SamplerSound.getNoteStringFromMIDI 60 = "C4"%string /\
  ~ SamplerSound.getNoteStringFromMIDI 60 = SamplerSound.getNoteStringFromMIDI 72.
Proof.
  split; [reflexivity|]. intros H.
  apply (getNoteStringFromMIDI_injective 60 72) in H; [discriminate H|lia|lia].
Defined.

Lemma handleAutomaticSources_releases_all_witness :
  automaticSources (ctx worldWithSources) = [1; 2; 3]%nat /\
  automaticSources (ctx (handleAutomaticSources worldWithSources)) = [2; 3]%nat /\
  automaticSources (ctx (Nat.iter 3 handleAutomaticSources worldWithSources)) = [3%nat].
Proof.
  split; [reflexivity|]. split; [reflexivity|].
  rewrite (handleAutomaticSources_releases_all 3 worldWithSources); [reflexivity|].
  simpl. lia.
Defined.

Lemma lazyInitialize_uninitialize_balance_witness :
  (lazyInitialize 0 worldWithDestination).1 = 1 /\
  exists w', uninitialize 1 (lazyInitialize 0 worldWithDestination).2 = Some (0, w').
Proof.
  destruct (lazyInitialize_uninitialize_balance 0 9 worldWithDestination)
    as (H1 & _ & w' & H2 & _); [vm_compute; split; discriminate|reflexivity..|].
  split; [exact H1|]. exists w'. rewrite H1 in H2. exact H2.
Defined.

Lemma lazyInitialize_without_destination_witness :
  m_isInitialized (ctx (lazyInitialize 0 world0).2) = true /\
  uninitialize (lazyInitialize 0 world0).1 (lazyInitialize 0 world0).2 = None.
Proof.
  destruct (lazyInitialize_without_destination 0 world0) as (_ & H1 & _ & H2);
    [reflexivity..|].
  split; assumption.
Defined.

Lemma stop_once_witness :
  exists s' w',
    stop 2 1 (lazyInitialize 0 worldWithDestination).2 = Some (s', w') /\
    s' = 0 /\ m_isInitialized (ctx w') = false.
Proof.
  destruct (stop_once 0 1 9 (lazyInitialize 0 worldWithDestination).2)
    as (s' & w' & H1 & H2 & _ & H3 & _); [reflexivity..|].
  exists s', w'. split; [exact H1|]. split; [rewrite H2; reflexivity|exact H3].
Defined.

Lemma stop_before_initialisation_witness :
  exists w',
    stop 2 0 worldConnected = Some (0, w') /\
    m_referencedNodes (ctx w') = [1; 2]%nat.
Proof.
  destruct (stop_before_initialisation 0 0 worldConnected)
    as (w' & H1 & H2 & _); [reflexivity..|].
  exists w'. split; [exact H1|]. rewrite H2. reflexivity.
Defined.

Lemma activeSourceCount_round_trip_witness :
  decrementActiveSourceCount (incrementActiveSourceCount AudioContext_hardware)
  = AudioContext_hardware.
Proof.
  destruct (activeSourceCount_round_trip AudioContext_hardware) as [H _];
    [vm_compute; split; discriminate|exact H].
Defined.

Lemma addAutomaticPullNode_removeAutomaticPullNode_witness :
  m_automaticPullNodes (removeAutomaticPullNode 3 (addAutomaticPullNode 3 AudioContext_hardware))
  = [] /\
  m_automaticPullNodesNeedUpdating
    (removeAutomaticPullNode 3 (addAutomaticPullNode 3 AudioContext_hardware)) = true.
Proof.
  destruct (addAutomaticPullNode_removeAutomaticPullNode 3 AudioContext_hardware)
    as (H1 & H2 & _); [apply not_elem_of_nil|].
  split; [rewrite H1; reflexivity|exact H2].
Defined.

Lemma connect_disconnect_round_trip_witness :
  connectionRefCount 1 (nodes (disconnectNodes 1 2 (connectNodes 1 2 world0))) = 0 /\
  referenceEntries 1 (ctx (disconnectNodes 1 2 (connectNodes 1 2 world0))) = 0%nat.
Proof.
  destruct (connect_disconnect_round_trip 1 2 1 world0) as [H1 H2];
    [vm_compute; split; discriminate..|].
  split; [rewrite H1; reflexivity|rewrite H2; reflexivity].
Defined.

Lemma connects_are_counted_witness :
  exists w',
    update (on_ctx (submitAll [Connect 1 2; Connect 2 3]) world0) = Some w' /\
    m_referencedNodes (ctx w') = [1; 2; 2; 3]%nat /\
    connectionRefCount 2 (nodes w') = 2.
Proof.
  destruct (@connects_are_counted flagNodes [(1, 2); (2, 3)]%nat (∅, ∅))
    as (w' & H1 & H2 & H3); [vm_compute; discriminate|].
  exists w'. split; [exact H1|]. split; [exact H2|].
  rewrite H3. unfold referenceEntries. rewrite H2. reflexivity.
Defined.

Lemma quiescent_worldConnected : quiescent (ctx worldConnected).
Proof. repeat split. Defined.

Lemma finished_node_is_dereferenced_witness :
  exists w',
    update (on_ctx (notifyNodeFinishedProcessing 1) worldConnected) = Some w' /\
    m_referencedNodes (ctx w') = [2%nat] /\
    connectionRefCount 1 (nodes w') = 1.
Proof.
  destruct (finished_node_is_dereferenced 1 worldConnected quiescent_worldConnected)
    as [_ H].
  destruct H as (w' & H1 & H2 & _ & H3).
  { apply list_elem_of_In. simpl. tauto. }
  exists w'. split; [exact H1|]. split; [rewrite H2; reflexivity|].
  rewrite H3. reflexivity.
Defined.

Lemma update_idempotent_witness :
  update (on_ctx (connect (Some 1%nat) (Some 2%nat)) world0) = Some worldConnected /\
  update worldConnected = Some worldConnected.
Proof.
  assert (H : update (on_ctx (connect (Some 1%nat) (Some 2%nat)) world0) = Some worldConnected)
    by reflexivity.
  split; [exact H|].
  apply (update_idempotent _ _ H).
Defined.

Lemma scheduleNodeDeletion_conserves_witness :
  m_nodesMarkedForDeletion contextWithMarkedNode = [1%nat] /\
  m_nodesToDelete (scheduleNodeDeletion true contextWithMarkedNode) = [1%nat] /\
  m_nodesMarkedForDeletion (scheduleNodeDeletion true contextWithMarkedNode) = [] /\
  m_isDeletionScheduled (scheduleNodeDeletion true contextWithMarkedNode) = true /\
  scheduleNodeDeletion true (scheduleNodeDeletion true contextWithMarkedNode)
  = scheduleNodeDeletion true contextWithMarkedNode /\
  scheduleNodeDeletion true contextInitialised = contextInitialised /\
  m_isDeletionScheduled (scheduleNodeDeletion true contextInitialised) = false.
Proof.
  destruct (scheduleNodeDeletion_conserves true contextWithMarkedNode) as (_ & _ & Hm).
  destruct Hm as (H1 & H2 & H3); [reflexivity..|intros H; discriminate H|].
  destruct (scheduleNodeDeletion_conserves true (scheduleNodeDeletion true contextWithMarkedNode))
    as (_ & Hs & _).
  destruct (scheduleNodeDeletion_conserves true contextInitialised) as (_ & Hn & _).
  split; [reflexivity|]. split; [rewrite H1; reflexivity|].
  split; [exact H2|]. split; [exact H3|].
  split; [apply Hs; right; right; left; exact H3|].
  assert (He : scheduleNodeDeletion true contextInitialised = contextInitialised).
  { apply Hn. right; right; right. reflexivity. }
  split; [exact He|]. rewrite He. reflexivity.
Defined.
